(** * World Happiness dashboard ([src/app.py])

    A shallow embedding of the data pipeline of the dashboard: the load-time
    imputation ([load_data]), the summary statistics ([get_summary_stats]),
    the clustering adapter ([perform_clustering], [get_cluster_names]) and
    the three reactive views of the server ([filtered_data],
    [clustered_data], [searched_data]).

    Conventions.
    - A pandas float cell is an [option Q]: [None] is NaN (a missing value),
      [Some q] the number [q]. Arithmetic is exact; only the standard
      deviation, a square root, lives in [R]. The rounding of binary64 is
      not described, so no property below rests on the last bit of a sum
      or a quotient.
    - A text cell is an [option string]: [None] is a missing name. A
      string is its UTF-8 bytes; lowering is described on ASCII text.
    - A DataFrame is the list of its rows, in index order, over the fixed
      schema of the columns the application reads.
    - A Python call that may raise returns a [result]. *)

From Stdlib Require Import ZArith QArith Qround Qreals Reals Lra Lia.
From Stdlib Require Import List String Ascii DecimalString.
From Stdlib Require DecimalPos DecimalZ Lqa.
From Stdlib Require Import Sorted Permutation.
From stdpp Require Import base gmap strings.
Import ListNotations.

(** ** Exceptions *)

Inductive exn : Type :=
| KeyError (key : string)
| ValueError (what : string)
| ReError (pattern : string)
| AttributeError.

Inductive result (A : Type) : Type :=
| Ok (a : A)
| Raise (e : exn).

Arguments Ok {A} a.
Arguments Raise {A} e.

#[global] Instance result_ret : MRet result := fun A a => Ok a.

#[global] Instance result_bind : MBind result :=
  fun A B f m => match m with Ok a => f a | Raise e => Raise e end.

#[global] Instance result_fmap : FMap result :=
  fun A B f m => match m with Ok a => Ok (f a) | Raise e => Raise e end.

(** ** The table *)

(** The numeric columns of the report the application names. *)
Inductive NumCol : Type :=
| LadderScore
| LoggedGDP
| SocialSupport
| HealthyLifeExpectancy
| FreedomChoices
| Generosity
| Corruption.

Definition numeric_cols : list NumCol :=
  [LadderScore; LoggedGDP; SocialSupport; HealthyLifeExpectancy;
   FreedomChoices; Generosity; Corruption].

Definition col_name (c : NumCol) : string :=
  match c with
  | LadderScore => "Ladder score"
  | LoggedGDP => "Logged GDP per capita"
  | SocialSupport => "Social support"
  | HealthyLifeExpectancy => "Healthy life expectancy"
  | FreedomChoices => "Freedom to make life choices"
  | Generosity => "Generosity"
  | Corruption => "Perceptions of corruption"
  end.

Record Row : Type := mkRow {
  country_name : option string;
  ladder_score : option Q;
  logged_gdp : option Q;
  social_support : option Q;
  healthy_life_expectancy : option Q;
  freedom : option Q;
  generosity : option Q;
  corruption : option Q
}.

Definition Table : Type := list Row.

(** [df[c]] restricted to one row. *)
Definition num_cell (c : NumCol) (r : Row) : option Q :=
  match c with
  | LadderScore => ladder_score r
  | LoggedGDP => logged_gdp r
  | SocialSupport => social_support r
  | HealthyLifeExpectancy => healthy_life_expectancy r
  | FreedomChoices => freedom r
  | Generosity => generosity r
  | Corruption => corruption r
  end.

(** The column [df[c]] as a Series. *)
Definition column (c : NumCol) (df : Table) : list (option Q) :=
  map (num_cell c) df.

(** Column lookup by label: [None] is the KeyError of pandas. *)
Definition col_of_name (name : string) : option NumCol :=
  find (fun c => String.eqb (col_name c) name) numeric_cols.

(** ** pandas Series reductions (all skip NaN) *)

Fixpoint dropna (s : list (option Q)) : list Q :=
  match s with
  | [] => []
  | Some v :: s' => v :: dropna s'
  | None :: s' => dropna s'
  end.

Definition Qsum (v : list Q) : Q := fold_right Qplus 0%Q v.

Definition Qlen (v : list Q) : Q := inject_Z (Z.of_nat (length v)).

Fixpoint insert_sorted (x : Q) (v : list Q) : list Q :=
  match v with
  | [] => [x]
  | y :: v' => if Qle_bool x y then x :: y :: v' else y :: insert_sorted x v'
  end.

Definition sort_values (v : list Q) : list Q := fold_right insert_sorted [] v.

(** [Series.mean()]: NaN on no present value. *)
Definition Series_mean (s : list (option Q)) : option Q :=
  match dropna s with
  | [] => None
  | v => Some (Qsum v / Qlen v)%Q
  end.

(** [Series.min()] and [Series.max()]. *)
Definition Series_min (s : list (option Q)) : option Q :=
  match dropna s with
  | [] => None
  | x :: v => Some (fold_left (fun a b => if Qle_bool a b then a else b) v x)
  end.

Definition Series_max (s : list (option Q)) : option Q :=
  match dropna s with
  | [] => None
  | x :: v => Some (fold_left (fun a b => if Qle_bool a b then b else a) v x)
  end.

(** [Series.quantile(q)] with the default linear interpolation: on the
    sorted present values, the value at the fractional position
    [q * (n - 1)]. *)
Definition Series_quantile (q : Q) (s : list (option Q)) : option Q :=
  match sort_values (dropna s) with
  | [] => None
  | v =>
      let pos := (q * (Qlen v - 1))%Q in
      let lo := Qfloor pos in
      let frac := (pos - inject_Z lo)%Q in
      let i := Z.to_nat lo in
      let a := nth i v 0%Q in
      let b := nth (Nat.min (S i) (length v - 1)) v 0%Q in
      Some (a + frac * (b - a))%Q
  end.

(** [Series.median()]: the middle value, or the mean of the two middle
    ones. *)
Definition Series_median (s : list (option Q)) : option Q :=
  match sort_values (dropna s) with
  | [] => None
  | v =>
      let n := length v in
      if Nat.even n
      then Some ((nth (n / 2 - 1) v 0 + nth (n / 2) v 0) / 2)%Q
      else Some (nth (n / 2) v 0%Q)
  end.

(** [Series.var()]: the sample variance (ddof = 1), NaN under two present
    values. *)
Definition Series_var (s : list (option Q)) : option Q :=
  match dropna s with
  | [] | [_] => None
  | v =>
      let m := (Qsum v / Qlen v)%Q in
      Some (Qsum (map (fun x => (x - m) * (x - m)) v) / (Qlen v - 1))%Q
  end.

(** [Series.std()]: the square root of the sample variance. *)
Definition Series_std (s : list (option Q)) : option R :=
  match Series_var s with
  | None => None
  | Some v => Some (sqrt (Q2R v))
  end.

(** [fillna] on one cell, with the column mean as the fill value: a NaN fill
    value leaves the cell missing. *)
Definition fillna (fill : option Q) (x : option Q) : option Q :=
  match x with
  | Some v => Some v
  | None => fill
  end.

(** ** Data loading *)

(** [load_data], from the frame [pd.read_csv] returned ([raw]): the header
    whitespace is already gone in the fixed schema, and every numeric column
    is filled with its own mean. *)
Definition load_data (raw : Table) : Table :=
  let mean_of c := Series_mean (column c raw) in
  map (fun r =>
         {| country_name := country_name r;
            ladder_score := fillna (mean_of LadderScore) (ladder_score r);
            logged_gdp := fillna (mean_of LoggedGDP) (logged_gdp r);
            social_support := fillna (mean_of SocialSupport) (social_support r);
            healthy_life_expectancy :=
              fillna (mean_of HealthyLifeExpectancy) (healthy_life_expectancy r);
            freedom := fillna (mean_of FreedomChoices) (freedom r);
            generosity := fillna (mean_of Generosity) (generosity r);
            corruption := fillna (mean_of Corruption) (corruption r) |})
      raw.

(** ** Summary statistics *)

Record SummaryStats : Type := mkStats {
  count : nat;
  mean : option Q;
  median : option Q;
  std : option R;
  min : option Q;
  max : option Q;
  q25 : option Q;
  q75 : option Q
}.

Definition get_summary_stats (df : Table) : SummaryStats :=
  let ladder := column LadderScore df in
  {| count := length df;
     mean := Series_mean ladder;
     median := Series_median ladder;
     std := Series_std ladder;
     min := Series_min ladder;
     max := Series_max ladder;
     q25 := Series_quantile (25 # 100) ladder;
     q75 := Series_quantile (75 # 100) ladder |}.

(** ** Cluster names *)

(** [str(n)] of a Python int. *)
Definition str (n : Z) : string := NilZero.string_of_int (Z.to_int n).

Definition names : gmap Z string :=
  <[0%Z := "Very Happy"]>
    (<[1%Z := "Happy"]> (<[2%Z := "Moderate"]> (<[3%Z := "Struggling"]> ∅))).

Definition get_cluster_names (cluster_id : Z) : string :=
  default ("Cluster " +:+ str cluster_id) (names !! cluster_id).

(** ** Text *)

(** A string is its sequence of UTF-8 bytes. *)

(** [str.isascii()]: every byte is below 128. *)
Definition isascii (s : string) : bool :=
  forallb (fun c => (nat_of_ascii c <? 128)%nat) (list_ascii_of_string s).

(** [str.lower()] on ASCII text: the letters A to Z are lowered, any other
    byte is kept. Python also lowers the letters beyond ASCII; on a string
    with such letters [lower] is not Python's function, and a property that
    speaks of the lowered text asks for [isascii] strings. *)
Definition lower_ascii (c : ascii) : ascii :=
  let n := nat_of_ascii c in
  if (65 <=? n)%nat && (n <=? 90)%nat then ascii_of_nat (n + 32) else c.

Fixpoint lower (s : string) : string :=
  match s with
  | EmptyString => EmptyString
  | String c s' => String (lower_ascii c) (lower s')
  end.

(** [sub in s]: plain substring containment. *)
Fixpoint contains (sub s : string) : bool :=
  String.prefix sub s
  || match s with
     | EmptyString => false
     | String _ s' => contains sub s'
     end.

(** The name contains the search string, letter case ignored. *)
Definition contains_ci (name search : string) : bool :=
  contains (lower search) (lower name).

(** *** The regular expressions of Python on ordinary characters and dots

    The part of [re] the development evaluates: a pattern of ordinary
    characters, each matching itself, and of dots, each matching any
    character but a newline. [re_plain] is [re.compile] on these patterns;
    a pattern with another special character is outside this description
    and gets [None], an answer nothing below relies on. *)

Inductive atom : Type :=
| Lit (c : ascii)
| Dot.

Definition re_special : list ascii :=
  list_ascii_of_string ".^$*+?{}[]\|()".

Definition is_special (c : ascii) : bool :=
  existsb (Ascii.eqb c) re_special.

Fixpoint re_parse (pat : string) : option (list atom) :=
  match pat with
  | EmptyString => Some []
  | String c pat' =>
      if Ascii.eqb c "." then option_map (cons Dot) (re_parse pat')
      else if is_special c then None
      else option_map (cons (Lit c)) (re_parse pat')
  end.

Definition atom_matches (a : atom) (c : ascii) : bool :=
  match a with
  | Lit x => Ascii.eqb x c
  | Dot => negb (Ascii.eqb c "010")
  end.

(** The atoms match a prefix of [s]. *)
Fixpoint match_here (p : list atom) (s : string) : bool :=
  match p, s with
  | [], _ => true
  | _ :: _, EmptyString => false
  | a :: p', String c s' => atom_matches a c && match_here p' s'
  end.

(** [regex.search(s) is not None]. *)
Fixpoint re_search (p : list atom) (s : string) : bool :=
  match_here p s
  || match s with
     | EmptyString => false
     | String _ s' => re_search p s'
     end.

Definition re_plain (pat : string) : option (string -> bool) :=
  option_map re_search (re_parse pat).

(** ** pandas frames: masks and boolean indexing *)

Definition ge_scalar (s : list (option Q)) (x : Q) : list bool :=
  map (fun c => match c with Some v => Qle_bool x v | None => false end) s.

Definition le_scalar (s : list (option Q)) (x : Q) : list bool :=
  map (fun c => match c with Some v => Qle_bool v x | None => false end) s.

Definition mask_and (m1 m2 : list bool) : list bool := zip_with andb m1 m2.

(** [df[mask]]: the rows whose mask entry is [True], in order. *)
Fixpoint boolean_index {A : Type} (df : list A) (mask : list bool) : list A :=
  match df, mask with
  | r :: df', b :: mask' =>
      if b then r :: boolean_index df' mask' else boolean_index df' mask'
  | _, _ => []
  end.

(** [df.head(n)]. *)
Definition head {A : Type} (n : nat) (df : list A) : list A := firstn n df.

(** ** User inputs *)

Record Inputs : Type := mkInputs {
  happiness_range : Q * Q;
  gdp_range : Q * Q;
  n_clusters : Z;
  cluster_features : list string;
  country_search : string
}.

(** A row of the clustered frame: the row with its [Cluster] and
    [Cluster_Name] columns. *)
Record ClusteredRow : Type := mkClusteredRow {
  base_row : Row;
  Cluster : Z;
  Cluster_Name : string
}.

Definition feature_map : gmap string string :=
  list_to_map
    [("ladder", "Ladder score");
     ("gdp", "Logged GDP per capita");
     ("social", "Social support");
     ("health", "Healthy life expectancy");
     ("freedom", "Freedom to make life choices")].

(** The five columns [perform_clustering] takes when [features is None]. *)
Definition default_features : list string :=
  ["Ladder score"; "Logged GDP per capita"; "Social support";
   "Healthy life expectancy"; "Freedom to make life choices"].

(** [df[features]]: the labels resolved to columns. The labels the
    application passes are labels of numeric columns ([feature_map],
    [default_features]); a label that is no column of the frame gets the
    KeyError of pandas. The label of the name column, a column that is not
    numeric, is never passed and is not described: it gets the same
    answer here, which nothing below relies on. *)
Fixpoint resolve_columns (features : list string) : result (list NumCol) :=
  match features with
  | [] => Ok []
  | f :: fs =>
      match col_of_name f with
      | None => Raise (KeyError f)
      | Some c => cs ← resolve_columns fs; Ok (c :: cs)
      end
  end.

(** [df[features].fillna(df[features].mean())]: one list per row, one cell
    per selected column, a missing cell replaced by the mean of its column
    in [df]. *)
Definition feature_matrix (df : Table) (cols : list NumCol) :
    list (list (option Q)) :=
  map (fun r =>
         map (fun c => fillna (Series_mean (column c df)) (num_cell c r)) cols)
      df.

(** ** The reactive graph: signals and view slots *)

Inductive InputId : Type :=
| HappinessRange
| GdpRange
| NClusters
| ClusterFeatures
| CountrySearch.

#[global] Instance InputId_eq_dec : EqDecision InputId.
Proof. solve_decision. Defined.

(** Values are compared by equality: of tables, of errors, of results. *)
#[global] Instance Q_eq_dec : EqDecision Q.
Proof. solve_decision. Defined.

#[global] Instance Row_eq_dec : EqDecision Row.
Proof. solve_decision. Defined.

#[global] Instance ClusteredRow_eq_dec : EqDecision ClusteredRow.
Proof. solve_decision. Defined.

#[global] Instance exn_eq_dec : EqDecision exn.
Proof. solve_decision. Defined.

#[global] Instance result_eq_dec {A : Type} `{EqDecision A} :
  EqDecision (result A).
Proof. solve_decision. Defined.

(** Modelled from the spec: the cache behind [@reactive.Calc] is in the
    Shiny framework, not under src/. The slot of a view, after section 4.4
    and the glossary: the cached value with the generation stamp of its
    upstream dependencies, the generation of the view itself (a version
    counter, one more whenever the value of the view changes), and [runs],
    the upstream values of every run of the computation, latest first (the
    call counter of section 8). *)
Record Calc (K V : Type) : Type := mkCalc {
  cached : option (list nat * V);
  calc_gen : nat;
  runs : list K
}.

Arguments cached {K V} c.
Arguments calc_gen {K V} c.
Arguments runs {K V} c.

(** Modelled from the spec: the cached value of a slot when its stamp is
    the current one (the view is Cached), [None] when the view is Stale. *)
Definition fresh {K V : Type} (stamp : list nat) (c : Calc K V) : option V :=
  match cached c with
  | Some (st, v) => if bool_decide (st = stamp) then Some v else None
  | None => None
  end.

(** Modelled from the spec: the slot after a run of the computation on
    the upstream values [k] with result [v]. The run is counted; the
    generation of the view goes up when [v] is not the value the slot
    held, and a first value is a change. *)
Definition store {K V : Type} `{EqDecision V} (stamp : list nat) (k : K)
    (v : V) (c : Calc K V) : Calc K V :=
  {| cached := Some (stamp, v);
     calc_gen :=
       match cached c with
       | Some (_, v0) => if decide (v0 = v) then calc_gen c else S (calc_gen c)
       | None => S (calc_gen c)
       end;
     runs := k :: runs c |}.

Section Server.

(** The table loaded at import time ([data = load_data()]). *)
Variable data : Table.

(** [filtered_data]: the happiness range, then the GDP range, each by a
    boolean mask on the frame left by the step before. *)
Definition filtered_data (input : Inputs) : Table :=
  let df := data in
  let df :=
    boolean_index df
      (mask_and
         (ge_scalar (column LadderScore df) (fst (happiness_range input)))
         (le_scalar (column LadderScore df) (snd (happiness_range input)))) in
  let df :=
    boolean_index df
      (mask_and
         (ge_scalar (column LoggedGDP df) (fst (gdp_range input)))
         (le_scalar (column LoggedGDP df) (snd (gdp_range input)))) in
  df.

(** *** Search *)

(** [re.compile]: the search function of a pattern, [None] when the
    pattern is rejected. *)
Variable re_compile : string -> option (string -> bool).

(** A missing cell of a text column. *)
Definition isna (x : option string) : bool :=
  match x with
  | None => true
  | Some _ => false
  end.

(** [Series.str]: only a column of text has the accessor. [read_csv] gives
    a column in which every row is missing the dtype [float64], and [.str]
    then raises [AttributeError]; a column with a name in some row, and the
    column of a table without rows, have dtype [object]. *)
Definition str_accessor (s : list (option string)) :
    result (list (option string)) :=
  match s with
  | [] => Ok s
  | _ :: _ => if forallb isna s then Raise AttributeError else Ok s
  end.

(** [Series.str.lower()]: a missing name stays missing; the result has
    dtype [object] whatever it holds. *)
Definition str_lower (s : list (option string)) : list (option string) :=
  map (option_map lower) s.

(** [Series.str.contains(pat, na=False)]: [regex=True] is the default, so
    [pat] is compiled and searched for in every present name; a missing
    name gives [na], here [False]. *)
Definition str_contains (s : list (option string)) (pat : string) :
    result (list bool) :=
  match re_compile pat with
  | None => Raise (ReError pat)
  | Some search =>
      Ok (map (fun x => match x with Some n => search n | None => false end) s)
  end.

Definition searched_data (input : Inputs) : result Table :=
  let df := data in
  df ←
    (if String.eqb (country_search input) EmptyString then Ok df
     else
       let search_term := lower (country_search input) in
       names ← str_accessor (map country_name df);
       mask ← str_contains (str_lower names) search_term;
       Ok (boolean_index df mask));
  Ok (head 20 df).

(** *** Clustering *)

(** The values of the standardized matrix (numpy floats). *)
Variable F : Type.

(** [StandardScaler().fit_transform]. *)
Variable StandardScaler_fit_transform :
  list (list (option Q)) -> result (list (list F)).

(** The state of a numpy random generator, [np.random.RandomState(seed)],
    and the K-means iteration of scikit-learn drawing from a generator:
    [n_clusters], [n_init], the matrix, the generator; the labels and the
    generator after the draws. *)
Variable RandomState : Type.
Variable RandomState_seed : Z -> RandomState.
Variable kmeans_run :
  Z -> Z -> list (list F) -> RandomState -> result (list Z) * RandomState.

(** [KMeans(n_clusters, random_state, n_init).fit_predict(X)], run with
    the global generator of numpy in state [g]: [random_state=None] draws
    from the global generator, an integer seeds a generator of its own and
    leaves the global one alone. *)
Definition KMeans_fit_predict (n_clusters : Z) (random_state : option Z)
    (n_init : Z) (X : list (list F)) (g : RandomState) :
    result (list Z) * RandomState :=
  match random_state with
  | None => kmeans_run n_clusters n_init X g
  | Some seed =>
      (fst (kmeans_run n_clusters n_init X (RandomState_seed seed)), g)
  end.

(** [perform_clustering]: the labels and the standardized matrix (the
    fitted scaler, which no caller reads, is left out). *)
Definition perform_clustering (df : Table) (n_clusters : Z)
    (features : option (list string)) (g : RandomState) :
    result (list Z * list (list F)) * RandomState :=
  let features :=
    match features with
    | None => default_features
    | Some fs => fs
    end in
  match resolve_columns features with
  | Raise e => (Raise e, g)
  | Ok cols =>
      let X := feature_matrix df cols in
      match StandardScaler_fit_transform X with
      | Raise e => (Raise e, g)
      | Ok X_scaled =>
          let '(clusters, g') :=
            KMeans_fit_predict n_clusters (Some 42%Z) 10%Z X_scaled g in
          ((fun c => (c, X_scaled)) <$> clusters, g')
      end
  end.

(** [df['Cluster'] = clusters], then the names: a ValueError when the
    lengths differ. *)
Definition assign_clusters (df : Table) (clusters : list Z) :
    result (list ClusteredRow) :=
  if (length df =? length clusters)%nat
  then
    Ok (zip_with
          (fun r c =>
             {| base_row := r; Cluster := c;
                Cluster_Name := get_cluster_names c |})
          df clusters)
  else Raise (ValueError "Length of values does not match length of index").

(** The features picked in the user interface, mapped to column labels;
    identifiers outside [feature_map] are skipped, and no feature left
    means the ladder score alone. *)
Definition selected_features (input : Inputs) : list string :=
  let selected := omap (fun f => feature_map !! f) (cluster_features input) in
  match selected with
  | [] => ["Ladder score"]
  | _ => selected
  end.

(** [clustered_data], on the frame [filtered_data()] returned. *)
Definition clustered_data (filtered : Table) (input : Inputs)
    (g : RandomState) :
    result (list ClusteredRow * list (list F) * list string) * RandomState :=
  let df := filtered in
  let features := selected_features input in
  let '(r, g') :=
    perform_clustering df (n_clusters input) (Some features) g in
  ('(clusters, X_scaled) ← r;
   df ← assign_clusters df clusters;
   Ok (df, X_scaled, features),
   g').

(** *** The reactive graph *)

(** Standardized values are compared by equality, like any float. *)
Context {F_eq_dec : EqDecision F}.

Definition ClusteredValue : Type :=
  result (list ClusteredRow * list (list F) * list string).

(** Modelled from the spec: the state of one session, not under src/: the
    current inputs, the generation of every input signal, the slots of the
    three views, and the global random generator of the process. *)
Record Session : Type := mkSession {
  input : Inputs;
  gens : InputId -> nat;
  filtered_calc : Calc (Q * Q * (Q * Q)) Table;
  clustered_calc : Calc (Table * Z * list string) ClusteredValue;
  searched_calc : Calc string (result Table);
  rng : RandomState
}.

(** Modelled from the spec: a new session, every view Stale. *)
Definition init_session (input0 : Inputs) (g : RandomState) : Session :=
  {| input := input0;
     gens := fun _ => 0%nat;
     filtered_calc := mkCalc _ _ None 0 [];
     clustered_calc := mkCalc _ _ None 0 [];
     searched_calc := mkCalc _ _ None 0 [];
     rng := g |}.

(** Modelled from the spec: a write to an input signal, not under src/. A
    value equal to the current one changes nothing; a new value is stored
    and the generation of the signal goes up by one. *)
Definition update_input (i : InputId) (same : bool) (input' : Inputs)
    (s : Session) : Session :=
  if same then s
  else
    {| input := input';
       gens := fun j => if decide (i = j) then S (gens s j) else gens s j;
       filtered_calc := filtered_calc s;
       clustered_calc := clustered_calc s;
       searched_calc := searched_calc s;
       rng := rng s |}.

Definition range_eqb (a b : Q * Q) : bool :=
  Qeq_bool (fst a) (fst b) && Qeq_bool (snd a) (snd b).

Definition set_happiness_range (v : Q * Q) (s : Session) : Session :=
  let i := input s in
  update_input HappinessRange (range_eqb v (happiness_range i))
    (mkInputs v (gdp_range i) (n_clusters i) (cluster_features i)
       (country_search i)) s.

Definition set_gdp_range (v : Q * Q) (s : Session) : Session :=
  let i := input s in
  update_input GdpRange (range_eqb v (gdp_range i))
    (mkInputs (happiness_range i) v (n_clusters i) (cluster_features i)
       (country_search i)) s.

Definition set_n_clusters (v : Z) (s : Session) : Session :=
  let i := input s in
  update_input NClusters (Z.eqb v (n_clusters i))
    (mkInputs (happiness_range i) (gdp_range i) v (cluster_features i)
       (country_search i)) s.

Definition set_cluster_features (v : list string) (s : Session) : Session :=
  let i := input s in
  update_input ClusterFeatures (bool_decide (v = cluster_features i))
    (mkInputs (happiness_range i) (gdp_range i) (n_clusters i) v
       (country_search i)) s.

Definition set_country_search (v : string) (s : Session) : Session :=
  let i := input s in
  update_input CountrySearch (String.eqb v (country_search i))
    (mkInputs (happiness_range i) (gdp_range i) (n_clusters i)
       (cluster_features i) v) s.

Definition filtered_stamp (s : Session) : list nat :=
  [gens s HappinessRange; gens s GdpRange].

(** Modelled from the spec: a read of the view [filtered_data]; the body
    that runs when the view is Stale is the one of src/app.py. *)
Definition read_filtered_data (s : Session) : Table * Session :=
  match fresh (filtered_stamp s) (filtered_calc s) with
  | Some v => (v, s)
  | None =>
      let v := filtered_data (input s) in
      let k := (happiness_range (input s), gdp_range (input s)) in
      (v,
       {| input := input s;
          gens := gens s;
          filtered_calc := store (filtered_stamp s) k v (filtered_calc s);
          clustered_calc := clustered_calc s;
          searched_calc := searched_calc s;
          rng := rng s |})
  end.

Definition searched_stamp (s : Session) : list nat :=
  [gens s CountrySearch].

(** Modelled from the spec: a read of the view [searched_data]; an error
    of the body is cached like a value and raised again by later reads. *)
Definition read_searched_data (s : Session) : result Table * Session :=
  match fresh (searched_stamp s) (searched_calc s) with
  | Some v => (v, s)
  | None =>
      let v := searched_data (input s) in
      let k := country_search (input s) in
      (v,
       {| input := input s;
          gens := gens s;
          filtered_calc := filtered_calc s;
          clustered_calc := clustered_calc s;
          searched_calc := store (searched_stamp s) k v (searched_calc s);
          rng := rng s |})
  end.

(** The stamp of [clustered_data]: the generation of the view it reads
    and of its two input signals. *)
Definition clustered_stamp (s : Session) : list nat :=
  [calc_gen (filtered_calc s); gens s NClusters; gens s ClusterFeatures].

(** Modelled from the spec: a read of the view [clustered_data]. The
    upstream view is brought up to date first; the body, when it runs,
    works on the table that read returned. *)
Definition read_clustered_data (s : Session) : ClusteredValue * Session :=
  let '(df, s) := read_filtered_data s in
  match fresh (clustered_stamp s) (clustered_calc s) with
  | Some v => (v, s)
  | None =>
      let '(v, g') := clustered_data df (input s) (rng s) in
      let k := (df, n_clusters (input s), cluster_features (input s)) in
      (v,
       {| input := input s;
          gens := gens s;
          filtered_calc := filtered_calc s;
          clustered_calc := store (clustered_stamp s) k v (clustered_calc s);
          searched_calc := searched_calc s;
          rng := g' |})
  end.

(** The three derived views, their reads behind one interface, and the
    number of runs of the computation of each. *)
Inductive View : Type :=
| FilteredTable
| ClusteredTable
| SearchedTable.

Inductive ViewValue : Type :=
| VFiltered (t : Table)
| VClustered (v : ClusteredValue)
| VSearched (v : result Table).

Definition read (w : View) (s : Session) : ViewValue * Session :=
  match w with
  | FilteredTable => let '(v, s') := read_filtered_data s in (VFiltered v, s')
  | ClusteredTable =>
      let '(v, s') := read_clustered_data s in (VClustered v, s')
  | SearchedTable => let '(v, s') := read_searched_data s in (VSearched v, s')
  end.

Definition run_count (w : View) (s : Session) : nat :=
  match w with
  | FilteredTable => length (runs (filtered_calc s))
  | ClusteredTable => length (runs (clustered_calc s))
  | SearchedTable => length (runs (searched_calc s))
  end.

(** The dependencies of each view, as its body in src/app.py reads them:
    the input signals it calls, and the view it calls. *)
Definition input_deps (w : View) : list InputId :=
  match w with
  | FilteredTable => [HappinessRange; GdpRange]
  | ClusteredTable => [NClusters; ClusterFeatures]
  | SearchedTable => [CountrySearch]
  end.

Definition view_deps (w : View) : list View :=
  match w with
  | FilteredTable => []
  | ClusteredTable => [FilteredTable]
  | SearchedTable => []
  end.

(** The upstream inputs of a view: the ones it reads itself and the ones
    of the view it reads. *)
Definition upstream (w : View) : list InputId :=
  input_deps w ++ flat_map input_deps (view_deps w).

(** The value of the input signal [i] is the same in [a] and in [b], by
    the test its write uses. *)
Definition input_eqb (i : InputId) (a b : Inputs) : bool :=
  match i with
  | HappinessRange => range_eqb (happiness_range a) (happiness_range b)
  | GdpRange => range_eqb (gdp_range a) (gdp_range b)
  | NClusters => Z.eqb (n_clusters a) (n_clusters b)
  | ClusterFeatures => bool_decide (cluster_features a = cluster_features b)
  | CountrySearch => String.eqb (country_search a) (country_search b)
  end.

(** Modelled from the spec: what happens in a session, not under src/:
    the user writes an input signal, or an output reads a view. *)
Inductive Event : Type :=
| SetHappinessRange (v : Q * Q)
| SetGdpRange (v : Q * Q)
| SetNClusters (v : Z)
| SetClusterFeatures (v : list string)
| SetCountrySearch (v : string)
| Read (w : View).

(** Modelled from the spec: the session after one event, a write to an
    input or the read of a view (the value read goes to the output). *)
Definition step (e : Event) (s : Session) : Session :=
  match e with
  | SetHappinessRange v => set_happiness_range v s
  | SetGdpRange v => set_gdp_range v s
  | SetNClusters v => set_n_clusters v s
  | SetClusterFeatures v => set_cluster_features v s
  | SetCountrySearch v => set_country_search v s
  | Read w => snd (read w s)
  end.

(** The session after the events, first to last. *)
Definition run (events : list Event) (s : Session) : Session :=
  fold_left (fun s e => step e s) events s.

(** No event of the list changes the value of an upstream input of the
    view [w]: after every event these inputs are what they were before
    it. Reads, writes to other inputs and writes of the current value
    pass. *)
Fixpoint quiet (w : View) (events : list Event) (s : Session) : bool :=
  match events with
  | [] => true
  | e :: events' =>
      forallb (fun i => input_eqb i (input s) (input (step e s))) (upstream w)
      && quiet w events' (step e s)
  end.

(** The body of each view on the inputs [i], the clustering run with the
    global generator in state [g]. *)
Definition body (w : View) (i : Inputs) (g : RandomState) : ViewValue :=
  match w with
  | FilteredTable => VFiltered (filtered_data i)
  | ClusteredTable => VClustered (fst (clustered_data (filtered_data i) i g))
  | SearchedTable => VSearched (searched_data i)
  end.

(** The view is Cached, and so is the view it reads: the value a read
    returns without a run. *)
Definition peek (w : View) (s : Session) : option ViewValue :=
  match w with
  | FilteredTable => VFiltered <$> fresh (filtered_stamp s) (filtered_calc s)
  | ClusteredTable =>
      match fresh (filtered_stamp s) (filtered_calc s) with
      | Some _ => VClustered <$> fresh (clustered_stamp s) (clustered_calc s)
      | None => None
      end
  | SearchedTable => VSearched <$> fresh (searched_stamp s) (searched_calc s)
  end.

(** No stamp is ahead of the generations: the stamp of every slot was
    taken from the generations of the inputs at some earlier time. *)
Definition stamps_behind (s : Session) : Prop :=
  (∀ st v, cached (filtered_calc s) = Some (st, v) →
     ∃ a b, st = [a; b]
            ∧ (a ≤ gens s HappinessRange)%nat ∧ (b ≤ gens s GdpRange)%nat)
  ∧ (∀ st v, cached (clustered_calc s) = Some (st, v) →
       ∃ a b c, st = [a; b; c]
                ∧ (b ≤ gens s NClusters)%nat
                ∧ (c ≤ gens s ClusterFeatures)%nat)
  ∧ (∀ st v, cached (searched_calc s) = Some (st, v) →
       ∃ a, st = [a] ∧ (a ≤ gens s CountrySearch)%nat).

End Server.

Arguments input {F RandomState} s.
Arguments gens {F RandomState} s i.
Arguments filtered_calc {F RandomState} s.
Arguments clustered_calc {F RandomState} s.
Arguments searched_calc {F RandomState} s.
Arguments rng {F RandomState} s.
Arguments init_session {F RandomState} input0 g.
Arguments update_input {F RandomState} i same input' s.
Arguments set_happiness_range {F RandomState} v s.
Arguments set_gdp_range {F RandomState} v s.
Arguments set_n_clusters {F RandomState} v s.
Arguments set_cluster_features {F RandomState} v s.
Arguments set_country_search {F RandomState} v s.
Arguments read_filtered_data data {F RandomState} s.
Arguments read_searched_data data re_compile {F RandomState} s.
Arguments read_clustered_data data {F} StandardScaler_fit_transform {RandomState}
  RandomState_seed kmeans_run {F_eq_dec} s.
Arguments read data re_compile {F} StandardScaler_fit_transform {RandomState}
  RandomState_seed kmeans_run {F_eq_dec} w s.
Arguments run_count {F RandomState} w s.
Arguments filtered_stamp {F RandomState} s.
Arguments searched_stamp {F RandomState} s.
Arguments clustered_stamp {F RandomState} s.
Arguments step data re_compile {F} StandardScaler_fit_transform {RandomState}
  RandomState_seed kmeans_run {F_eq_dec} e s.
Arguments run data re_compile {F} StandardScaler_fit_transform {RandomState}
  RandomState_seed kmeans_run {F_eq_dec} events s.
Arguments quiet data re_compile {F} StandardScaler_fit_transform {RandomState}
  RandomState_seed kmeans_run {F_eq_dec} w events s.
Arguments body data re_compile {F} StandardScaler_fit_transform {RandomState}
  RandomState_seed kmeans_run w i g.
Arguments peek {F RandomState} w s.
Arguments stamps_behind {F RandomState} s.
Arguments KMeans_fit_predict {F RandomState} RandomState_seed kmeans_run
  n_clusters random_state n_init X g.
Arguments perform_clustering {F} StandardScaler_fit_transform {RandomState}
  RandomState_seed kmeans_run
  df n_clusters features g.
Arguments clustered_data {F} StandardScaler_fit_transform {RandomState}
  RandomState_seed kmeans_run
  filtered input g.

(** ** Outputs of the server *)

(** What a render function can raise: the error of the view it reads, an
    index outside an axis of an array, a value of the wrong type. *)
Inductive render_exn : Type :=
| ViewError (e : exn)
| IndexError (index size : nat)
| TypeError.

Inductive rendered (A : Type) : Type :=
| Shown (a : A)
| Failed (e : render_exn).

Arguments Shown {A} a.
Arguments Failed {A} e.

#[global] Instance rendered_ret : MRet rendered := fun A a => Shown a.

#[global] Instance rendered_bind : MBind rendered :=
  fun A B f m => match m with Shown a => f a | Failed e => Failed e end.

(** *** The scatter plot of the filtered table *)

(** One [go.Scatter] trace: its name, its points, the colour of its
    markers. *)
Record Scatter : Type := mkScatter {
  trace_name : string;
  trace_x : list (option Q);
  trace_y : list (option Q);
  trace_color : string
}.

(** [x in t] for a tuple of strings. *)
Definition tuple_in (x : string) (t : list string) : bool :=
  existsb (String.eqb x) t.

(** [series * k] and [series / k]: NaN stays NaN. *)
Definition mul_scalar (s : list (option Q)) (k : Q) : list (option Q) :=
  map (option_map (fun v => v * k)%Q) s.

Definition div_scalar (s : list (option Q)) (k : Q) : list (option Q) :=
  map (option_map (fun v => v / k)%Q) s.

(** [scatter_plot], on the frame [filtered_data()] returned and the value
    of [input.factor_select()]: the traces of the figure, in the order they
    are added (the layout of the figure is constant). *)
Definition scatter_plot (df : Table) (factor_select : list string) :
    list Scatter :=
  let fig := [] in
  let fig :=
    if tuple_in "gdp" factor_select
    then fig ++ [mkScatter "GDP vs Happiness"
                   (column LadderScore df) (column LoggedGDP df) "blue"]
    else fig in
  let fig :=
    if tuple_in "social" factor_select
    then fig ++ [mkScatter "Social Support vs Happiness"
                   (column LadderScore df)
                   (mul_scalar (column SocialSupport df) 10) "green"]
    else fig in
  let fig :=
    if tuple_in "health" factor_select
    then fig ++ [mkScatter "Life Expectancy vs Happiness"
                   (column LadderScore df)
                   (div_scalar (column HealthyLifeExpectancy df) 10) "red"]
    else fig in
  fig.

(** *** The cluster outputs *)

(** [sorted(l)] on integers. *)
Fixpoint insert_int (x : Z) (l : list Z) : list Z :=
  match l with
  | [] => [x]
  | y :: l' => if (x <=? y)%Z then x :: y :: l' else y :: insert_int x l'
  end.

Definition sorted (l : list Z) : list Z := fold_right insert_int [] l.

(** [Series.unique()]: the values in order of first appearance. *)
Fixpoint unique (l : list Z) : list Z :=
  match l with
  | [] => []
  | x :: l' => x :: List.filter (fun y => negb (y =? x)%Z) (unique l')
  end.

(** [sep.join(values)]: a TypeError on a value that is no string (here a
    missing name, a float NaN). *)
Definition join (sep : string) (values : list (option string)) :
    rendered string :=
  match mapM (fun v : option string => v) values with
  | Some l => Shown (String.concat sep l)
  | None => Failed TypeError
  end.

(** One row of the cluster summary. *)
Record ClusterSummary : Type := mkClusterSummary {
  Summary_Cluster : string;
  Count : nat;
  Avg_Happiness : string;
  Countries : string
}.

(** The 3-D scatter of the clusters: the three axes, the colour and the
    hover text of the markers, the title of the layout. *)
Record Scatter3d (F : Type) : Type := mkScatter3d {
  scatter_x : list F;
  scatter_y : list F;
  scatter_z : list F;
  scatter_color : list Z;
  scatter_text : list (option string);
  scatter_title : string
}.

Arguments mkScatter3d {F} _ _ _ _ _ _.
Arguments scatter_x {F} s.
Arguments scatter_y {F} s.
Arguments scatter_z {F} s.
Arguments scatter_color {F} s.
Arguments scatter_text {F} s.
Arguments scatter_title {F} s.

Section Outputs.

Context {F : Type}.

(** [X.shape[1]] of a two-dimensional array kept as the list of its rows.
    An array without rows is read as one without columns; the scaler of
    scikit-learn returns none, it rejects an empty sample. *)
Definition shape1 (X : list (list F)) : nat :=
  match X with
  | [] => 0
  | r :: _ => length r
  end.

(** [X[:, j]]: the column, an IndexError when [j] is outside a row. *)
Definition ndarray_column (X : list (list F)) (j : nat) : rendered (list F) :=
  match mapM (fun r : list F => r !! j) X with
  | Some c => Shown c
  | None => Failed (IndexError j (shape1 X))
  end.

(** [cluster_3d_plot], on the value [clustered_data()] returned: the
    arguments of [go.Scatter3d] are evaluated in order, x, y, z, and the
    title reads the cluster count. *)
Definition cluster_3d_plot (clustered : ClusteredValue F) (input : Inputs) :
    rendered (Scatter3d F) :=
  match clustered with
  | Raise e => Failed (ViewError e)
  | Ok (df, X_scaled, features) =>
      x ← ndarray_column X_scaled 0;
      y ← ndarray_column X_scaled 1;
      z ← (if (2 <? shape1 X_scaled)%nat
           then ndarray_column X_scaled 2
           else ndarray_column X_scaled 0);
      Shown
        (mkScatter3d x y z (map Cluster df)
           (map (fun r => country_name (base_row r)) df)
           ("K-Means Clustering (k=" +:+ str (n_clusters input) +:+ ")"))
  end.

(** The [.2f] format of a float, and
    [DataFrame.nlargest(n, 'Ladder score')] on the clustered frame. *)
Variable format_2f : option Q -> string.
Variable nlargest : nat -> list ClusteredRow -> list ClusteredRow.

(** The body of the loop of [cluster_table]: the summary row of one
    cluster id. The entries of the row are evaluated in order, and only the
    last one, the join of the names, can raise. *)
Definition cluster_summary (df : list ClusteredRow) (cluster : Z) :
    rendered ClusterSummary :=
  let cluster_df := List.filter (fun r => (Cluster r =? cluster)%Z) df in
  countries ←
    join ", " (map (fun r => country_name (base_row r)) (nlargest 3 cluster_df));
  Shown
    {| Summary_Cluster := get_cluster_names cluster;
       Count := length cluster_df;
       Avg_Happiness :=
         format_2f
           (Series_mean (map (fun r => ladder_score (base_row r)) cluster_df));
       Countries := countries |}.

(** [cluster_table], on the value [clustered_data()] returned: one summary
    row per cluster id, in ascending order of the ids. *)
Definition cluster_table (clustered : ClusteredValue F) :
    rendered (list ClusterSummary) :=
  match clustered with
  | Raise e => Failed (ViewError e)
  | Ok (df, _, _) =>
      mapM (cluster_summary df) (sorted (unique (map Cluster df)))
  end.

End Outputs.

(** * Vocabulary of the properties *)

(** A float cell holds the number [q]. *)
Definition holds (x : option Q) (q : Q) : Prop :=
  ∃ v, x = Some v ∧ (v == q)%Q.

(** The summary of a frame without a present ladder score: no row is
    counted out, every statistic is NaN. *)
Definition nan_stats (n : nat) : SummaryStats :=
  {| count := n; mean := None; median := None; std := None;
     min := None; max := None; q25 := None; q75 := None |}.

(** A row with a ladder score and nothing else. *)
Definition ladder_only (q : Q) : Row :=
  mkRow None (Some q) None None None None None None.

(** The cell lies in the closed interval. *)
Definition in_range (x : option Q) (range : Q * Q) : Prop :=
  ∃ v, x = Some v ∧ (fst range <= v)%Q ∧ (v <= snd range)%Q.

(** The same as a test: what the two masks of [filtered_data] compute on a
    cell. *)
Definition in_range_b (x : option Q) (range : Q * Q) : bool :=
  match x with
  | Some v => Qle_bool (fst range) v && Qle_bool v (snd range)
  | None => false
  end.

(** The country name of the row is present. *)
Definition has_name (r : Row) : bool :=
  match country_name r with
  | Some _ => true
  | None => false
  end.

(** The table has rows and none of them has a name: its name column is
    not a text column. *)
Definition nameless (t : Table) : bool :=
  match t with
  | [] => false
  | _ :: _ => forallb (fun r => negb (has_name r)) t
  end.

(** Every name of the table is ASCII text. *)
Definition ascii_names (t : Table) : bool :=
  forallb (fun r => match country_name r with
                    | Some n => isascii n
                    | None => true
                    end) t.

(** The mask [str_contains] computes on the lowered names, as a test on the
    row. *)
Definition name_matches (search : string → bool) (r : Row) : bool :=
  match country_name r with
  | Some n => search (lower n)
  | None => false
  end.

(** A string without a special character of the regular expressions, and
    the pattern it is compiled to. *)
Definition plain (s : string) : bool :=
  forallb (fun c => negb (is_special c)) (list_ascii_of_string s).

Definition lits (s : string) : list atom := map Lit (list_ascii_of_string s).

(** Stand-ins for the scikit-learn routines, to apply the clustering
    theorems at a concrete input: a scaler that keeps the present values, a
    K-means that puts every row in cluster 0 and draws nothing. *)
Definition keep_scaler (X : list (list (option Q))) : result (list (list Q)) :=
  Ok (map (map (fun x => match x with Some v => v | None => 0%Q end)) X).

Definition single_cluster (n_clusters n_init : Z) (X : list (list Q))
    (g : unit) : result (list Z) * unit :=
  (Ok (map (fun _ => 0%Z) X), g).

(** Stand-ins for the float format and for [nlargest], to apply the
    theorems on the cluster summary at a concrete input: a format that
    writes nothing, a selection that takes the first rows. *)
Definition blank_format (x : option Q) : string := EmptyString.

Definition first_rows (n : nat) (df : list ClusteredRow) : list ClusteredRow :=
  firstn n df.

(** The rows of the clustered frame in cluster [c]. *)
Definition in_cluster (c : Z) (df : list ClusteredRow) : list ClusteredRow :=
  List.filter (fun r => (Cluster r =? c)%Z) df.

(** The value [Series_quantile] reads at the fraction [q] of the sorted
    values [v]. *)
Definition interpolate (q : Q) (v : list Q) : Q :=
  let pos := (q * (Qlen v - 1))%Q in
  let lo := Qfloor pos in
  let frac := (pos - inject_Z lo)%Q in
  let i := Z.to_nat lo in
  let a := nth i v 0%Q in
  let b := nth (Nat.min (S i) (length v - 1)) v 0%Q in
  (a + frac * (b - a))%Q.

(** * Properties *)

(** ** Cluster names *)

Lemma names_lookup_outside (id : Z) :
  (id < 0 ∨ 4 ≤ id)%Z → names !! id = None.
Proof.
  intros Hid. unfold names.
  rewrite !lookup_insert_ne by lia.
  apply lookup_empty.
Qed.

(** [str] writes the decimal numeral of its argument: reading it back gives
    the number. *)
Lemma str_reads_back (n : Z) :
  Z.of_int <$> NilZero.int_of_string (str n) = Some n.
Proof.
  unfold str.
  rewrite NilZero.isi.
  - simpl. f_equal. apply DecimalZ.of_to.
  - destruct n as [|p|p]; simpl; try discriminate.
    intros [= H]. exact (DecimalPos.Unsigned.to_uint_nonnil p H).
  - destruct n as [|p|p]; simpl; try discriminate.
    intros [= H]. exact (DecimalPos.Unsigned.to_uint_nonnil p H).
Qed.

(** C6. [get_cluster_names] names the ids 0 to 3 "Very Happy", "Happy",
    "Moderate" and "Struggling"; every id from 4 on is named "Cluster N",
    with N the decimal numeral of the id; so id 5 is "Cluster 5". *)
Theorem get_cluster_names_table :
  get_cluster_names 0 = "Very Happy"
  ∧ get_cluster_names 1 = "Happy"
  ∧ get_cluster_names 2 = "Moderate"
  ∧ get_cluster_names 3 = "Struggling"
  ∧ (∀ id : Z, (4 ≤ id)%Z → get_cluster_names id = "Cluster " +:+ str id)
  ∧ get_cluster_names 5 = "Cluster 5".
Proof.
  repeat split; try reflexivity.
  intros id Hid. unfold get_cluster_names.
  rewrite names_lookup_outside by lia. reflexivity.
Qed.

(** ** Summary statistics *)

Lemma get_summary_stats_ladder (df df' : Table) :
  column LadderScore df = column LadderScore df' →
  get_summary_stats df = get_summary_stats df'.
Proof.
  intros H. unfold get_summary_stats. rewrite H.
  f_equal. rewrite <- (length_map (num_cell LadderScore) df).
  rewrite <- (length_map (num_cell LadderScore) df').
  unfold column in H. now rewrite H.
Qed.

Lemma sqrt_5_2_bounds : (1.5811 < sqrt (5 / 2) < 1.5812)%R.
Proof.
  split.
  - rewrite <- (sqrt_Rsqr 1.5811) by lra.
    apply sqrt_lt_1_alt. unfold Rsqr. lra.
  - rewrite <- (sqrt_Rsqr 1.5812) by lra.
    apply sqrt_lt_1_alt. unfold Rsqr. lra.
Qed.

Ltac holds_by_computation :=
  eexists; split; [vm_compute; reflexivity | reflexivity].

(** C7. On a table whose ladder scores are 1, 2, 3, 4, 5, the summary has
    count 5, mean 3, median 3, minimum 1, maximum 5, quartiles 2 and 4, and
    the sample standard deviation sqrt(5/2), which lies between 1.5811 and
    1.5812. *)
Theorem get_summary_stats_1_to_5 (df : Table) :
  column LadderScore df = [Some 1; Some 2; Some 3; Some 4; Some 5]%Q →
  let stats := get_summary_stats df in
  count stats = 5%nat
  ∧ holds (mean stats) 3
  ∧ holds (median stats) 3
  ∧ std stats = Some (sqrt (5 / 2))
  ∧ (1.5811 < sqrt (5 / 2) < 1.5812)%R
  ∧ holds (min stats) 1
  ∧ holds (max stats) 5
  ∧ holds (q25 stats) 2
  ∧ holds (q75 stats) 4.
Proof.
  intros Hcol stats.
  assert (Hlen : length df = 5%nat).
  { rewrite <- (length_map (num_cell LadderScore) df).
    unfold column in Hcol. now rewrite Hcol. }
  subst stats. unfold get_summary_stats. cbn [count mean median std min max q25 q75].
  rewrite Hcol, Hlen.
  repeat split.
  - holds_by_computation.
  - holds_by_computation.
  - unfold Series_std.
    replace (Series_var [Some 1; Some 2; Some 3; Some 4; Some 5]%Q)
      with (Some (97656250 # 39062500)) by (vm_compute; reflexivity).
    do 2 f_equal. unfold Q2R. cbn [Qnum Qden]. lra.
  - apply sqrt_5_2_bounds.
  - apply sqrt_5_2_bounds.
  - holds_by_computation.
  - holds_by_computation.
  - holds_by_computation.
  - holds_by_computation.
Qed.

Lemma get_summary_stats_1_to_5_witness :
  let stats := get_summary_stats (map ladder_only [1; 2; 3; 4; 5]%Q) in
  count stats = 5%nat
  ∧ holds (mean stats) 3
  ∧ holds (median stats) 3
  ∧ std stats = Some (sqrt (5 / 2))
  ∧ (1.5811 < sqrt (5 / 2) < 1.5812)%R
  ∧ holds (min stats) 1
  ∧ holds (max stats) 5
  ∧ holds (q25 stats) 2
  ∧ holds (q75 stats) 4.
Proof.
  apply (get_summary_stats_1_to_5 (map ladder_only [1; 2; 3; 4; 5]%Q)).
  reflexivity.
Defined.

(** C8, as the claim states it, fails on the empty table: the summary is
    returned, with count 0 and NaN for every statistic, and no error is
    signalled. *)
Lemma get_summary_stats_empty_returns_nan :
  get_summary_stats [] = nan_stats 0
  ∧ mean (get_summary_stats []) = None
  ∧ std (get_summary_stats []) = None.
Proof. repeat split; reflexivity. Qed.

(** C8, amended. On a table with zero rows the summary is the record with
    count 0 and NaN for the mean, the median, the standard deviation, the
    minimum, the maximum and both quartiles. *)
Theorem get_summary_stats_zero_rows (df : Table) :
  length df = 0%nat → get_summary_stats df = nan_stats 0.
Proof.
  intros Hlen. destruct df as [|r df]; [reflexivity | discriminate].
Qed.

Lemma get_summary_stats_zero_rows_witness :
  get_summary_stats [] = nan_stats 0.
Proof. apply (get_summary_stats_zero_rows []). reflexivity. Defined.

(** ** Data loading *)

Lemma dropna_nil_iff (s : list (option Q)) :
  dropna s = [] ↔ ∀ x, In x s → x = None.
Proof.
  induction s as [|x s IH]; simpl.
  - split; [intros _ x [] | reflexivity].
  - destruct x as [v|].
    + split; [discriminate |]. intros H. specialize (H (Some v) (or_introl eq_refl)).
      discriminate.
    + rewrite IH. split.
      * intros H x [<- | Hx]; [reflexivity | now apply H].
      * intros H x Hx. apply H. now right.
Qed.

Lemma Series_mean_present (s : list (option Q)) :
  (∃ x, In x s ∧ x ≠ None) →
  Series_mean s = Some (Qsum (dropna s) / Qlen (dropna s))%Q.
Proof.
  intros (x & Hin & Hx). unfold Series_mean.
  destruct (dropna s) as [|v vs] eqn:E; [|reflexivity].
  exfalso. apply Hx. exact (proj1 (dropna_nil_iff s) E x Hin).
Qed.

Lemma load_data_column (raw : Table) (c : NumCol) :
  column c (load_data raw)
  = map (fillna (Series_mean (column c raw))) (column c raw).
Proof.
  unfold column, load_data. rewrite !map_map.
  apply map_ext. intros r. destruct c; reflexivity.
Qed.




(** ** The filtered view *)

Lemma boolean_index_map {A : Type} (p : A → bool) (df : list A) :
  boolean_index df (map p df) = List.filter p df.
Proof.
  induction df as [|r df IH]; simpl; [reflexivity|].
  rewrite IH. reflexivity.
Qed.

Lemma mask_and_map {A : Type} (p q : A → bool) (df : list A) :
  mask_and (map p df) (map q df) = map (fun r => p r && q r) df.
Proof.
  unfold mask_and. induction df as [|r df IH]; simpl; [reflexivity|].
  now rewrite IH.
Qed.

Lemma in_range_b_spec (x : option Q) (range : Q * Q) :
  in_range_b x range = true ↔ in_range x range.
Proof.
  unfold in_range_b, in_range. destruct x as [v|].
  - rewrite andb_true_iff, !Qle_bool_iff. split.
    + intros [H1 H2]. exists v. auto.
    + intros (w & [= <-] & H1 & H2). auto.
  - split; [discriminate | intros (w & [=] & _)].
Qed.

Lemma filtered_data_filter (data : Table) (input : Inputs) :
  filtered_data data input
  = List.filter (fun r => in_range_b (logged_gdp r) (gdp_range input))
      (List.filter (fun r => in_range_b (ladder_score r) (happiness_range input))
         data).
Proof.
  unfold filtered_data, ge_scalar, le_scalar, column.
  rewrite !map_map, !mask_and_map, !boolean_index_map.
  match goal with
  | |- List.filter _ (List.filter ?f1 _) = _ =>
      rewrite (List.filter_ext f1
                 (fun r => in_range_b (ladder_score r) (happiness_range input)))
  end.
  - apply List.filter_ext. intros r. unfold in_range_b. simpl.
    destruct (logged_gdp r); reflexivity.
  - intros r. unfold in_range_b. simpl. destruct (ladder_score r); reflexivity.
Qed.

(** C2. Every row of the filtered table is a row of the base table whose
    happiness score and logged GDP lie in the two closed ranges, and every
    row of the base table that is not in the filtered table violates one of
    the two ranges. *)
Theorem filtered_data_correct (data : Table) (input : Inputs) :
  (∀ r, In r (filtered_data data input) →
        In r data
        ∧ in_range (ladder_score r) (happiness_range input)
        ∧ in_range (logged_gdp r) (gdp_range input))
  ∧ (∀ r, In r data → ¬ In r (filtered_data data input) →
          ¬ in_range (ladder_score r) (happiness_range input)
          ∨ ¬ in_range (logged_gdp r) (gdp_range input)).
Proof.
  rewrite filtered_data_filter. split.
  - intros r Hr. apply filter_In in Hr. destruct Hr as [Hr Hg].
    apply filter_In in Hr. destruct Hr as [Hr Hh].
    rewrite in_range_b_spec in Hg, Hh. auto.
  - intros r Hr Hout.
    destruct (in_range_b (ladder_score r) (happiness_range input)) eqn:Hh.
    + destruct (in_range_b (logged_gdp r) (gdp_range input)) eqn:Hg.
      * exfalso. apply Hout. apply filter_In. split; [|exact Hg].
        apply filter_In. split; assumption.
      * right. rewrite <- in_range_b_spec. congruence.
    + left. rewrite <- in_range_b_spec. congruence.
Qed.

(** ** The searched view *)

Lemma str_accessor_nameless (t : Table) :
  str_accessor (map country_name t)
  = if nameless t then Raise AttributeError else Ok (map country_name t).
Proof.
  destruct t as [|r t]; [reflexivity|].
  unfold str_accessor, nameless. cbn [map].
  replace (forallb isna (country_name r :: map country_name t))
    with (forallb (fun r => negb (has_name r)) (r :: t)); [reflexivity|].
  change (country_name r :: map country_name t)
    with (map country_name (r :: t)).
  generalize (r :: t). intros l. induction l as [|x l IH]; [reflexivity|].
  cbn [map forallb]. rewrite IH. unfold has_name, isna.
  now destruct (country_name x).
Qed.

(** A table with a name in some row is not nameless. *)
Lemma nameless_false (t : Table) (r : Row) :
  In r t → has_name r = true → nameless t = false.
Proof.
  intros Hin Hr. destruct t as [|x t]; [reflexivity|].
  unfold nameless. apply not_true_is_false. intros H.
  rewrite forallb_forall in H. specialize (H r Hin).
  rewrite Hr in H. discriminate H.
Qed.

Lemma searched_data_unfold (data : Table)
    (re_compile : string → option (string → bool)) (input : Inputs) :
  searched_data data re_compile input
  = if String.eqb (country_search input) EmptyString
    then Ok (firstn 20 data)
    else if nameless data then Raise AttributeError
    else match re_compile (lower (country_search input)) with
         | None => Raise (ReError (lower (country_search input)))
         | Some search => Ok (firstn 20 (List.filter (name_matches search) data))
         end.
Proof.
  unfold searched_data, head.
  destruct (String.eqb _ _); [reflexivity|].
  rewrite str_accessor_nameless.
  destruct (nameless data); [reflexivity|].
  unfold str_contains, str_lower. cbn.
  destruct (re_compile _) as [search|]; [|reflexivity].
  cbn. do 2 f_equal. rewrite !map_map.
  rewrite <- (boolean_index_map (name_matches search)).
  f_equal. apply map_ext. intros r. unfold name_matches.
  destruct (country_name r); reflexivity.
Qed.

Lemma filter_filter_implied {A : Type} (p q : A → bool) (l : list A) :
  (∀ x, p x = true → q x = true) →
  List.filter p (List.filter q l) = List.filter p l.
Proof.
  intros Hpq. induction l as [|x l IH]; simpl; [reflexivity|].
  destruct (q x) eqn:Hq; simpl.
  - now rewrite IH.
  - destruct (p x) eqn:Hp; [|exact IH].
    apply Hpq in Hp. congruence.
Qed.

Lemma In_head {A : Type} (n : nat) (l : list A) (x : A) :
  In x (head n l) → In x l.
Proof.
  unfold head. intros H. rewrite <- (firstn_skipn n l).
  apply in_or_app. now left.
Qed.

(** The searched table has at most 20 rows, all of them rows of the base
    table. *)
Lemma searched_data_head (data : Table)
    (re_compile : string → option (string → bool)) (input : Inputs)
    (t : Table) :
  searched_data data re_compile input = Ok t →
  (length t ≤ 20)%nat ∧ ∀ r, In r t → In r data.
Proof.
  rewrite searched_data_unfold.
  destruct (String.eqb _ _).
  - intros [= <-]. split; [apply firstn_le_length|].
    intros r Hr. exact (In_head _ _ _ Hr).
  - destruct (nameless data); [discriminate|].
    destruct (re_compile _) as [search|]; [|discriminate].
    intros [= <-]. split; [apply firstn_le_length|].
    intros r Hr. apply In_head in Hr.
    now apply filter_In in Hr.
Qed.

(** C3, at the search string ".": the dot is compiled as a regular
    expression and matches any character, so the row of Finland is returned
    although its name does not contain a dot. *)
Theorem searched_data_dot_returns_dotless_name :
  let finland := mkRow (Some "Finland") (Some 7.8%Q) (Some 10.8%Q) None None None None None in
  let input := mkInputs (0, 10)%Q (0, 20)%Q 4%Z [] "." in
  searched_data [finland] re_plain input = Ok [finland]
  ∧ contains_ci "Finland" "." = false.
Proof. split; reflexivity. Qed.

(** *** Search strings without special characters *)

Lemma prefix_app (p s : string) :
  String.prefix p s = true ↔ ∃ b, s = p +:+ b.
Proof.
  revert s. induction p as [|c p IH]; intros s.
  - split; [intros _; now exists s | intros _; now destruct s].
  - destruct s as [|d s]; simpl.
    + split; [discriminate | intros [b H]; discriminate H].
    + destruct (ascii_dec c d) as [->|Hne].
      * rewrite IH. split; intros [b H]; exists b.
        -- now rewrite H.
        -- now injection H.
      * split; [discriminate|]. intros [b H]. injection H as H1 _.
        now symmetry in H1.
Qed.

(** [contains] is substring containment. *)
Lemma contains_spec (sub s : string) :
  contains sub s = true ↔ ∃ a b, s = a +:+ sub +:+ b.
Proof.
  induction s as [|c s IH]; cbn [contains]; rewrite orb_true_iff, prefix_app.
  - split.
    + intros [[b H]|H]; [|discriminate]. now exists EmptyString, b.
    + intros (a & b & H). left. destruct a; [|discriminate H].
      now exists b.
  - rewrite IH. split.
    + intros [[b H]|(a & b & H)].
      * now exists EmptyString, b.
      * exists (String c a), b. simpl. now rewrite H.
    + intros (a & b & H). destruct a as [|c' a]; simpl in H.
      * left. now exists b.
      * right. injection H as _ H. now exists a, b.
Qed.

Lemma re_parse_plain (pat : string) :
  plain pat = true → re_parse pat = Some (lits pat).
Proof.
  unfold plain, lits. induction pat as [|c pat IH]; [reflexivity|].
  cbn [list_ascii_of_string forallb map re_parse].
  rewrite andb_true_iff, negb_true_iff. intros [Hc Hpat].
  destruct (Ascii.eqb_spec c ".") as [->|_]; [discriminate Hc|].
  rewrite Hc, (IH Hpat). reflexivity.
Qed.

Lemma match_here_lits (pat s : string) :
  match_here (lits pat) s = String.prefix pat s.
Proof.
  unfold lits. revert s. induction pat as [|c pat IH]; intros s.
  - destruct s; reflexivity.
  - destruct s as [|d s]; [reflexivity|].
    cbn [list_ascii_of_string map match_here atom_matches String.prefix].
    rewrite IH. destruct (Ascii.eqb_spec c d) as [->|Hne].
    + destruct (ascii_dec d d); [reflexivity | contradiction].
    + destruct (ascii_dec c d); [contradiction | reflexivity].
Qed.

Lemma re_search_lits (pat s : string) :
  re_search (lits pat) s = contains pat s.
Proof.
  induction s as [|d s IH]; cbn [re_search contains];
    rewrite match_here_lits; [reflexivity|].
  now rewrite IH.
Qed.

Lemma lower_ascii_not_special (c : ascii) :
  is_special c = false → is_special (lower_ascii c) = false.
Proof.
  destruct c as [[] [] [] [] [] [] [] []]; intros H; try reflexivity;
    discriminate H.
Qed.

Lemma lower_plain (s : string) : plain s = true → plain (lower s) = true.
Proof.
  unfold plain. induction s as [|c s IH]; [reflexivity|].
  cbn [lower list_ascii_of_string forallb].
  rewrite !andb_true_iff, !negb_true_iff. intros [Hc Hs].
  split; [now apply lower_ascii_not_special | now apply IH].
Qed.

(** On ASCII text, with a search string free of special characters, every
    row returned has a name that contains the search string, letter case
    ignored. *)
Lemma searched_data_plain_search (data : Table) (input : Inputs) (t : Table) :
  country_search input ≠ EmptyString →
  plain (country_search input) = true →
  isascii (country_search input) = true →
  ascii_names data = true →
  searched_data data re_plain input = Ok t →
  ∀ r, In r t →
       ∃ n, country_name r = Some n
            ∧ contains_ci n (country_search input) = true.
Proof.
  intros Hne Hplain _ _. rewrite searched_data_unfold.
  destruct (String.eqb_spec (country_search input) EmptyString) as [He|_];
    [contradiction|].
  destruct (nameless data); [discriminate|].
  unfold re_plain. rewrite (re_parse_plain _ (lower_plain _ Hplain)). cbn.
  intros [= <-] r Hr. apply In_head in Hr. apply filter_In in Hr.
  destruct Hr as [_ Hr]. unfold name_matches in Hr.
  destruct (country_name r) as [n|]; [|discriminate].
  exists n. split; [reflexivity|].
  unfold contains_ci. now rewrite <- re_search_lits.
Qed.

(** For an empty search string the searched table is the first 20 rows of
    the base table. *)
Lemma searched_data_empty_search (data : Table)
    (re_compile : string → option (string → bool)) (input : Inputs) :
  country_search input = EmptyString →
  searched_data data re_compile input = Ok (firstn 20 data).
Proof.
  intros H. rewrite searched_data_unfold, H. reflexivity.
Qed.

(** X23. With a name in some row of the base table, the rows with a
    missing name play no part in a non-empty search: the outcome, table or
    error, is the one on the base table without these rows, and no row of
    the searched table has a missing name. *)
Theorem searched_data_skips_missing_names (data : Table)
    (re_compile : string → option (string → bool)) (input : Inputs)
    (named : Row) :
  country_search input ≠ EmptyString →
  In named data → has_name named = true →
  searched_data data re_compile input
  = searched_data (List.filter has_name data) re_compile input
  ∧ ∀ t, searched_data data re_compile input = Ok t →
         ∀ r, In r t → country_name r ≠ None.
Proof.
  intros Hne Hin Hnamed. rewrite !searched_data_unfold.
  destruct (String.eqb_spec (country_search input) EmptyString) as [He|_];
    [contradiction|].
  rewrite (nameless_false data named Hin Hnamed).
  rewrite (nameless_false (List.filter has_name data) named);
    [|now apply filter_In | exact Hnamed].
  destruct (re_compile _) as [search|]; [|split; [reflexivity | discriminate]].
  split.
  - rewrite filter_filter_implied; [reflexivity|].
    intros r. unfold name_matches, has_name.
    now destruct (country_name r).
  - intros t [= <-] r Hr. apply In_head in Hr. apply filter_In in Hr.
    destruct Hr as [_ Hr]. unfold name_matches in Hr.
    now destruct (country_name r).
Qed.

Lemma searched_data_skips_missing_names_witness :
  let data :=
    [mkRow None (Some 5%Q) None None None None None None;
     mkRow (Some "Finland") (Some 7.8%Q) None None None None None None;
     mkRow (Some "Chad") (Some 4%Q) None None None None None None] in
  let input := mkInputs (0, 10)%Q (0, 20)%Q 4%Z [] "fin" in
  searched_data data re_plain input
  = searched_data (List.filter has_name data) re_plain input
  ∧ ∀ t, searched_data data re_plain input = Ok t →
         ∀ r, In r t → country_name r ≠ None.
Proof.
  apply (searched_data_skips_missing_names
           [mkRow None (Some 5%Q) None None None None None None;
            mkRow (Some "Finland") (Some 7.8%Q) None None None None None None;
            mkRow (Some "Chad") (Some 4%Q) None None None None None None]
           re_plain
           (mkInputs (0, 10)%Q (0, 20)%Q 4%Z [] "fin")
           (mkRow (Some "Finland") (Some 7.8%Q) None None None None None None)).
  - discriminate.
  - right. left. reflexivity.
  - reflexivity.
Defined.

(** C10, on a base table whose rows all miss their name: the name column
    is then read as [float64], and a non-empty search raises
    [AttributeError] at the [.str] accessor, although [na=False] asks for a
    missing name to count as no match. Without these rows the search
    returns the empty table. *)
Theorem searched_data_nameless_table_raises :
  let unnamed := mkRow None (Some 5%Q) (Some 9%Q) None None None None None in
  let input := mkInputs (0, 10)%Q (0, 20)%Q 4%Z [] "fin" in
  searched_data [unnamed] re_plain input = Raise AttributeError
  ∧ searched_data (List.filter has_name [unnamed]) re_plain input = Ok [].
Proof. split; reflexivity. Qed.

(** ** Clustering *)

Lemma selected_features_none (input : Inputs) :
  cluster_features input = [] → selected_features input = ["Ladder score"].
Proof. intros H. unfold selected_features. rewrite H. reflexivity. Qed.

Lemma feature_matrix_single (df : Table) (c : NumCol) :
  feature_matrix df [c]
  = map (fun x => [fillna (Series_mean (column c df)) x]) (column c df).
Proof.
  unfold feature_matrix, column. rewrite map_map.
  apply map_ext. intros r. reflexivity.
Qed.

Lemma feature_matrix_ladder_only (df df' : Table) :
  column LadderScore df = column LadderScore df' →
  feature_matrix df [LadderScore] = feature_matrix df' [LadderScore].
Proof.
  intros H. rewrite !feature_matrix_single. now rewrite H.
Qed.

Section ClusteringProperties.

Context {F RandomState : Type}.
Variable StandardScaler_fit_transform :
  list (list (option Q)) → result (list (list F)).
Variable RandomState_seed : Z → RandomState.
Variable kmeans_run :
  Z → Z → list (list F) → RandomState → result (list Z) * RandomState.

Local Notation "'perform'" :=
  (perform_clustering StandardScaler_fit_transform RandomState_seed kmeans_run).

(** C5. For a fixed table, fixed feature columns and a fixed cluster count,
    the labels and the standardized matrix [perform_clustering] returns are
    the same whatever the state of the global random generator at the call,
    and the call leaves that generator as it found it: two calls give the
    same assignments. *)
Theorem perform_clustering_deterministic (df : Table) (n_clusters : Z)
    (features : option (list string)) (g1 g2 : RandomState) :
  fst (perform df n_clusters features g1) = fst (perform df n_clusters features g2)
  ∧ snd (perform df n_clusters features g1) = g1
  ∧ fst (perform df n_clusters features (snd (perform df n_clusters features g1)))
    = fst (perform df n_clusters features g1).
Proof.
  assert (Hsnd : ∀ g, snd (perform df n_clusters features g) = g).
  { intros g. unfold perform_clustering.
    destruct (resolve_columns _); [|reflexivity].
    destruct (StandardScaler_fit_transform _); reflexivity. }
  assert (Hfst : ∀ g g', fst (perform df n_clusters features g)
                         = fst (perform df n_clusters features g')).
  { intros g g'. unfold perform_clustering.
    destruct (resolve_columns _); [|reflexivity].
    destruct (StandardScaler_fit_transform _); reflexivity. }
  split; [apply Hfst|]. split; [apply Hsnd|]. apply Hfst.
Qed.

(** Called without features, [perform_clustering] itself takes its five
    default columns; the application never calls it so. *)
Lemma perform_clustering_without_features (df : Table) (n_clusters : Z)
    (g : RandomState) :
  perform df n_clusters None g = perform df n_clusters (Some default_features) g
  ∧ length default_features = 5%nat.
Proof. split; reflexivity. Qed.

Lemma perform_clustering_ladder_only (df df' : Table) (n_clusters : Z)
    (g : RandomState) :
  column LadderScore df = column LadderScore df' →
  perform df n_clusters (Some ["Ladder score"]) g
  = perform df' n_clusters (Some ["Ladder score"]) g.
Proof.
  intros H. unfold perform_clustering. cbn [resolve_columns].
  change (col_of_name "Ladder score") with (Some LadderScore).
  cbn. now rewrite (feature_matrix_ladder_only df df' H).
Qed.

(** The clustering on the ladder score alone: the matrix has one column,
    the ladder scores with the missing ones replaced by their mean; it is
    standardized, and K-means runs on the standardized matrix with the
    cluster count asked for, 10 initialisations and a generator seeded with
    42. The global generator is left alone. *)
Lemma perform_clustering_ladder_score (df : Table) (n_clusters : Z)
    (g : RandomState) :
  perform df n_clusters (Some ["Ladder score"]) g
  = match
      StandardScaler_fit_transform
        (map (fun x => [fillna (Series_mean (column LadderScore df)) x])
           (column LadderScore df))
    with
    | Raise e => (Raise e, g)
    | Ok X_scaled =>
        (clusters ← fst (kmeans_run n_clusters 10%Z X_scaled
                           (RandomState_seed 42%Z));
         Ok (clusters, X_scaled),
         g)
    end.
Proof.
  unfold perform_clustering. cbn [resolve_columns].
  change (col_of_name "Ladder score") with (Some LadderScore).
  cbn. rewrite feature_matrix_single.
  destruct (StandardScaler_fit_transform _) as [X_scaled|e]; [|reflexivity].
  destruct (kmeans_run _ _ _ _) as [[clusters|e] g']; reflexivity.
Qed.

(** C4. When the user selects no clustering feature, the features handed to
    [perform_clustering] are the single default column "Ladder score" and
    the view returns that one label; [perform_clustering] then standardizes
    and clusters the one-column matrix of the ladder scores (missing scores
    replaced by the mean of the present ones), so that the labels and the
    matrix depend on the table through its ladder score column alone. *)
Theorem clustered_data_default_feature (filtered : Table) (input : Inputs)
    (g : RandomState) :
  cluster_features input = [] →
  selected_features input = ["Ladder score"]
  ∧ clustered_data StandardScaler_fit_transform RandomState_seed kmeans_run
      filtered input g
    = (let '(r, g') :=
         perform filtered (n_clusters input) (Some ["Ladder score"]) g in
       ('(clusters, X_scaled) ← r;
        df ← assign_clusters filtered clusters;
        Ok (df, X_scaled, ["Ladder score"]),
        g'))
  ∧ perform filtered (n_clusters input) (Some ["Ladder score"]) g
    = match
        StandardScaler_fit_transform
          (map (fun x => [fillna (Series_mean (column LadderScore filtered)) x])
             (column LadderScore filtered))
      with
      | Raise e => (Raise e, g)
      | Ok X_scaled =>
          (clusters ← fst (kmeans_run (n_clusters input) 10%Z X_scaled
                             (RandomState_seed 42%Z));
           Ok (clusters, X_scaled),
           g)
      end
  ∧ ∀ df' : Table,
      column LadderScore df' = column LadderScore filtered →
      perform df' (n_clusters input) (Some ["Ladder score"]) g
      = perform filtered (n_clusters input) (Some ["Ladder score"]) g.
Proof.
  intros Hnone. pose proof (selected_features_none input Hnone) as Hsel.
  split; [exact Hsel|]. split; [|split].
  - unfold clustered_data. rewrite Hsel. reflexivity.
  - apply perform_clustering_ladder_score.
  - intros df' Hcol. now apply perform_clustering_ladder_only.
Qed.

End ClusteringProperties.

Lemma clustered_data_default_feature_witness :
  let filtered :=
    [mkRow (Some "Finland") (Some 7%Q) (Some 10%Q) None None None None None;
     mkRow (Some "Denmark") (Some 6%Q) (Some 11%Q) None None None None None] in
  let input := mkInputs (0, 10)%Q (0, 20)%Q 2%Z [] "" in
  selected_features input = ["Ladder score"]
  ∧ clustered_data keep_scaler (fun _ => tt) single_cluster filtered input tt
    = (let '(r, g') :=
         perform_clustering keep_scaler (fun _ => tt) single_cluster
           filtered (n_clusters input) (Some ["Ladder score"]) tt in
       ('(clusters, X_scaled) ← r;
        df ← assign_clusters filtered clusters;
        Ok (df, X_scaled, ["Ladder score"]),
        g'))
  ∧ perform_clustering keep_scaler (fun _ => tt) single_cluster
      filtered (n_clusters input) (Some ["Ladder score"]) tt
    = match
        keep_scaler
          (map (fun x => [fillna (Series_mean (column LadderScore filtered)) x])
             (column LadderScore filtered))
      with
      | Raise e => (Raise e, tt)
      | Ok X_scaled =>
          (clusters ← fst (single_cluster (n_clusters input) 10%Z X_scaled tt);
           Ok (clusters, X_scaled),
           tt)
      end
  ∧ ∀ df' : Table,
      column LadderScore df' = column LadderScore filtered →
      perform_clustering keep_scaler (fun _ => tt) single_cluster
        df' (n_clusters input) (Some ["Ladder score"]) tt
      = perform_clustering keep_scaler (fun _ => tt) single_cluster
          filtered (n_clusters input) (Some ["Ladder score"]) tt.
Proof.
  apply (clustered_data_default_feature keep_scaler (fun _ => tt) single_cluster
           [mkRow (Some "Finland") (Some 7%Q) (Some 10%Q) None None None None None;
            mkRow (Some "Denmark") (Some 6%Q) (Some 11%Q) None None None None None]
           (mkInputs (0, 10)%Q (0, 20)%Q 2%Z [] "") tt).
  reflexivity.
Defined.

(** ** The reactive graph *)

Section ReactiveProperties.

Variable data : Table.
Variable re_compile : string → option (string → bool).
Context {F RandomState : Type} {F_eq_dec : EqDecision F}.
Variable StandardScaler_fit_transform :
  list (list (option Q)) → result (list (list F)).
Variable RandomState_seed : Z → RandomState.
Variable kmeans_run :
  Z → Z → list (list F) → RandomState → result (list Z) * RandomState.

Local Notation "'session'" := (Session F RandomState).
Local Notation "'read_clustered'" :=
  (read_clustered_data data StandardScaler_fit_transform RandomState_seed
     kmeans_run).
Local Notation "'read_view'" :=
  (read data re_compile StandardScaler_fit_transform RandomState_seed
     kmeans_run).
Local Notation "'step_session'" :=
  (step data re_compile StandardScaler_fit_transform RandomState_seed
     kmeans_run).
Local Notation "'run_session'" :=
  (run data re_compile StandardScaler_fit_transform RandomState_seed
     kmeans_run).
Local Notation "'quiet_for'" :=
  (quiet data re_compile StandardScaler_fit_transform RandomState_seed
     kmeans_run).
Local Notation "'body_of'" :=
  (body data re_compile StandardScaler_fit_transform RandomState_seed
     kmeans_run).

(** *** The slot *)

Lemma fresh_store {K V : Type} `{EqDecision V} (stamp : list nat) (k : K)
    (v : V) (c : Calc K V) :
  fresh stamp (store stamp k v c) = Some v.
Proof.
  unfold fresh, store. cbn [cached].
  now rewrite bool_decide_eq_true_2 by reflexivity.
Qed.

(** *** One read *)

(** A read of the filtered view leaves it Cached with the value returned,
    and touches neither the inputs nor the other slots. *)
Lemma read_filtered_data_post (s : session) :
  let '(v, s1) := read_filtered_data data s in
  fresh (filtered_stamp s1) (filtered_calc s1) = Some v
  ∧ gens s1 = gens s
  ∧ input s1 = input s
  ∧ clustered_calc s1 = clustered_calc s
  ∧ searched_calc s1 = searched_calc s
  ∧ rng s1 = rng s
  ∧ match fresh (filtered_stamp s) (filtered_calc s) with
    | Some _ => s1 = s
    | None =>
        runs (filtered_calc s1)
        = (happiness_range (input s), gdp_range (input s))
            :: runs (filtered_calc s)
    end.
Proof.
  unfold read_filtered_data.
  destruct (fresh _ (filtered_calc s)) as [v|] eqn:Hf.
  - rewrite Hf. repeat split; reflexivity.
  - cbn [filtered_stamp filtered_calc gens input clustered_calc
         searched_calc rng].
    rewrite fresh_store. repeat split; reflexivity.
Qed.

Lemma read_filtered_data_cached (s : session) (v : Table) :
  fresh (filtered_stamp s) (filtered_calc s) = Some v →
  read_filtered_data data s = (v, s).
Proof. intros H. unfold read_filtered_data. now rewrite H. Qed.

(** A read of the searched view, likewise. *)
Lemma read_searched_data_post (s : session) :
  let '(v, s1) := read_searched_data data re_compile s in
  fresh (searched_stamp s1) (searched_calc s1) = Some v
  ∧ gens s1 = gens s
  ∧ input s1 = input s
  ∧ filtered_calc s1 = filtered_calc s
  ∧ clustered_calc s1 = clustered_calc s
  ∧ match fresh (searched_stamp s) (searched_calc s) with
    | Some _ => s1 = s
    | None =>
        runs (searched_calc s1)
        = country_search (input s) :: runs (searched_calc s)
    end.
Proof.
  unfold read_searched_data.
  destruct (fresh _ (searched_calc s)) as [v|] eqn:Hf.
  - rewrite Hf. repeat split; reflexivity.
  - cbn [searched_stamp searched_calc gens input filtered_calc
         clustered_calc].
    rewrite fresh_store. repeat split; reflexivity.
Qed.

Lemma read_searched_data_cached (s : session) (v : result Table) :
  fresh (searched_stamp s) (searched_calc s) = Some v →
  read_searched_data data re_compile s = (v, s).
Proof. intros H. unfold read_searched_data. now rewrite H. Qed.

(** A read of the clustered view reads the filtered view first and leaves
    both Cached; it runs the clustering at most once and touches neither
    the inputs nor the searched slot. *)
Lemma read_clustered_data_post (s : session) :
  let '(v, s1) := read_clustered s in
  (∃ df, fresh (filtered_stamp s1) (filtered_calc s1) = Some df)
  ∧ fresh (clustered_stamp s1) (clustered_calc s1) = Some v
  ∧ gens s1 = gens s
  ∧ input s1 = input s
  ∧ filtered_calc s1 = filtered_calc (snd (read_filtered_data data s))
  ∧ searched_calc s1 = searched_calc s
  ∧ (length (runs (clustered_calc s1)) ≤ S (length (runs (clustered_calc s))))%nat.
Proof.
  unfold read_clustered_data.
  pose proof (read_filtered_data_post s) as Hpost.
  destruct (read_filtered_data data s) as [df sA].
  destruct Hpost as (Hfresh & Hgens & Hinput & Hclu & Hsea & Hrng & _).
  cbn [snd].
  destruct (fresh _ (clustered_calc sA)) as [v|] eqn:Hc.
  - split; [eauto|]. split; [exact Hc|].
    repeat split; try assumption. rewrite Hclu. lia.
  - destruct (clustered_data _ _ _ df (input sA) (rng sA)) as [v g'] eqn:Hbody.
    cbn [filtered_stamp clustered_stamp filtered_calc clustered_calc gens
         input searched_calc].
    rewrite fresh_store. split; [eauto|].
    repeat split; try assumption.
    unfold store. cbn [runs length]. rewrite Hclu.
    reflexivity.
Qed.

Lemma read_clustered_data_cached (s : session) (df : Table)
    (v : ClusteredValue F) :
  fresh (filtered_stamp s) (filtered_calc s) = Some df →
  fresh (clustered_stamp s) (clustered_calc s) = Some v →
  read_clustered s = (v, s).
Proof.
  intros Hf Hc. unfold read_clustered_data.
  rewrite (read_filtered_data_cached s df Hf). now rewrite Hc.
Qed.

(** After a read, the view is Cached with the value the read returned. *)
Lemma read_peek (w : View) (s : session) :
  peek w (snd (read_view w s)) = Some (fst (read_view w s)).
Proof.
  destruct w; unfold read, peek.
  - pose proof (read_filtered_data_post s) as Hpost.
    destruct (read_filtered_data data s) as [v s1].
    destruct Hpost as (Hfresh & _). cbn [fst snd]. now rewrite Hfresh.
  - pose proof (read_clustered_data_post s) as Hpost.
    destruct (read_clustered s) as [v s1].
    destruct Hpost as ((df & Hf) & Hc & _). cbn [fst snd].
    now rewrite Hf, Hc.
  - pose proof (read_searched_data_post s) as Hpost.
    destruct (read_searched_data data re_compile s) as [v s1].
    destruct Hpost as (Hfresh & _). cbn [fst snd]. now rewrite Hfresh.
Qed.

(** The read of a Cached view returns the cached value and leaves the
    session as it is. *)
Lemma read_cached (w : View) (s : session) (x : ViewValue F) :
  peek w s = Some x → read_view w s = (x, s).
Proof.
  destruct w; unfold read, peek.
  - destruct (fresh _ (filtered_calc s)) as [v|] eqn:Hf; [|discriminate].
    intros [= <-]. now rewrite (read_filtered_data_cached s v Hf).
  - destruct (fresh _ (filtered_calc s)) as [df|] eqn:Hf; [|discriminate].
    destruct (fresh _ (clustered_calc s)) as [v|] eqn:Hc; [|discriminate].
    intros [= <-]. now rewrite (read_clustered_data_cached s df v Hf Hc).
  - destruct (fresh _ (searched_calc s)) as [v|] eqn:Hf; [|discriminate].
    intros [= <-]. now rewrite (read_searched_data_cached s v Hf).
Qed.

(** A read runs the computation of its view at most once. *)
Lemma read_runs_at_most_once (w : View) (s : session) :
  (run_count w (snd (read_view w s)) ≤ S (run_count w s))%nat.
Proof.
  destruct w; unfold read, run_count.
  - pose proof (read_filtered_data_post s) as Hpost.
    destruct (read_filtered_data data s) as [v s1].
    destruct Hpost as (_ & _ & _ & _ & _ & _ & Hruns). cbn [snd].
    destruct (fresh _ (filtered_calc s)); [subst s1; lia|].
    rewrite Hruns. cbn. lia.
  - pose proof (read_clustered_data_post s) as Hpost.
    destruct (read_clustered s) as [v s1].
    now destruct Hpost as (_ & _ & _ & _ & _ & _ & Hruns).
  - pose proof (read_searched_data_post s) as Hpost.
    destruct (read_searched_data data re_compile s) as [v s1].
    destruct Hpost as (_ & _ & _ & _ & _ & Hruns). cbn [snd].
    destruct (fresh _ (searched_calc s)); [subst s1; lia|].
    rewrite Hruns. cbn. lia.
Qed.

(** *** Events between two reads *)

(** What [peek] looks at: the generations of the inputs and the slots of
    the view and of the view it reads. *)
Lemma peek_ext (w : View) (s s' : session) :
  gens s' = gens s →
  (w ≠ SearchedTable → filtered_calc s' = filtered_calc s) →
  (w = ClusteredTable → clustered_calc s' = clustered_calc s) →
  (w = SearchedTable → searched_calc s' = searched_calc s) →
  peek w s' = peek w s ∧ (run_count w s' = run_count w s).
Proof.
  intros Hgens Hfil Hclu Hsea.
  destruct w; unfold peek, run_count, filtered_stamp, clustered_stamp,
    searched_stamp; rewrite Hgens.
  - now rewrite Hfil.
  - now rewrite Hfil, Hclu.
  - now rewrite Hsea.
Qed.

(** A read of any view keeps a Cached view Cached, with its value, and
    does not run its computation. *)
Lemma read_keeps_cached (w w' : View) (s : session) (x : ViewValue F) :
  peek w s = Some x →
  peek w (snd (read_view w' s)) = Some x
  ∧ run_count w (snd (read_view w' s)) = run_count w s.
Proof.
  intros Hpeek.
  assert (Hfil : w ≠ SearchedTable →
                 ∃ df, read_filtered_data data s = (df, s)).
  { intros Hw. destruct w; [| |contradiction]; unfold peek in Hpeek;
      destruct (fresh _ (filtered_calc s)) as [df|] eqn:Hf;
      try discriminate; exists df; exact (read_filtered_data_cached s df Hf). }
  assert (Hdec : w' = w ∨ w' ≠ w).
  { destruct w, w'; (now left) || (right; discriminate). }
  destruct Hdec as [->|Hne].
  { now rewrite (read_cached w s x Hpeek). }
  rewrite <- Hpeek. destruct w'; unfold read.
  - pose proof (read_filtered_data_post s) as H.
    destruct (read_filtered_data data s) as [v s1] eqn:Hread. cbn [snd].
    destruct H as (_ & Hgens & _ & Hclu & Hsea & _).
    apply peek_ext; try assumption; try (intros ->; congruence).
    intros Hw. destruct (Hfil Hw) as [df Hdf]. congruence.
  - pose proof (read_clustered_data_post s) as H.
    destruct (read_clustered s) as [v s1]. cbn [snd].
    destruct H as (_ & _ & Hgens & _ & Hfc & Hsea & _).
    apply peek_ext; try assumption; try (intros ->; congruence).
    intros Hw. destruct (Hfil Hw) as [df Hdf]. now rewrite Hfc, Hdf.
  - pose proof (read_searched_data_post s) as H.
    destruct (read_searched_data data re_compile s) as [v s1]. cbn [snd].
    destruct H as (_ & Hgens & _ & Hfc & Hclu & _).
    apply peek_ext; try assumption; try (intros ->; congruence).
    intros _. exact Hfc.
Qed.

(** A write to an input that is not upstream of the view leaves the view
    as it is. *)
Lemma update_input_keeps (w : View) (i : InputId) (same : bool)
    (input' : Inputs) (s : session) :
  ¬ In i (upstream w) →
  peek w (update_input i same input' s) = peek w s
  ∧ run_count w (update_input i same input' s) = run_count w s.
Proof.
  intros Hout. unfold update_input.
  destruct same; [split; reflexivity|].
  split; [|destruct w; reflexivity].
  destruct w, i; try reflexivity; exfalso; apply Hout; cbn; tauto.
Qed.

Lemma range_eqb_sym (a b : Q * Q) : range_eqb a b = range_eqb b a.
Proof.
  unfold range_eqb. f_equal; apply eq_true_iff_eq;
    rewrite !Qeq_bool_iff; split; apply Qeq_sym.
Qed.

(** A write that the test of [quiet] lets pass is a write of the current
    value, or a write to another input. *)
Lemma write_keeps_cached (w : View) (i : InputId) (same : bool)
    (input' : Inputs) (s : session) :
  (same = false → input_eqb i (input s) input' = false) →
  forallb (fun j => input_eqb j (input s)
                      (input (update_input i same input' s)))
    (upstream w) = true →
  peek w (update_input i same input' s) = peek w s
  ∧ run_count w (update_input i same input' s) = run_count w s.
Proof.
  intros Hnew Hquiet.
  destruct same eqn:Hsame; [split; reflexivity|].
  apply update_input_keeps. intros Hin.
  rewrite forallb_forall in Hquiet. specialize (Hquiet i Hin).
  cbn in Hquiet. rewrite Hnew in Hquiet by reflexivity. discriminate Hquiet.
Qed.

(** One event that changes no upstream input of a Cached view keeps it
    Cached, with its value, and does not run its computation. *)
Lemma step_keeps_cached (w : View) (e : Event) (s : session)
    (x : ViewValue F) :
  peek w s = Some x →
  forallb (fun i => input_eqb i (input s) (input (step_session e s)))
    (upstream w) = true →
  peek w (step_session e s) = Some x
  ∧ run_count w (step_session e s) = run_count w s.
Proof.
  intros Hpeek Hquiet. rewrite <- Hpeek.
  destruct e as [v|v|v|v|v|w']; cbn [step] in *;
    [apply write_keeps_cached; [|exact Hquiet]; cbn [input_eqb]; intros H..
    | rewrite Hpeek; now apply read_keeps_cached].
  - cbn. now rewrite range_eqb_sym.
  - cbn. now rewrite range_eqb_sym.
  - cbn. now rewrite Z.eqb_sym.
  - cbn. apply bool_decide_eq_false. apply bool_decide_eq_false in H.
    congruence.
  - cbn. now rewrite String.eqb_sym.
Qed.

(** Any number of such events, likewise. *)
Lemma run_keeps_cached (w : View) (events : list Event) (s : session)
    (x : ViewValue F) :
  peek w s = Some x →
  quiet_for w events s = true →
  peek w (run_session events s) = Some x
  ∧ run_count w (run_session events s) = run_count w s.
Proof.
  revert s. induction events as [|e events IH]; intros s Hpeek Hquiet.
  - split; [exact Hpeek | reflexivity].
  - cbn [quiet] in Hquiet. apply andb_true_iff in Hquiet as [He Hrest].
    destruct (step_keeps_cached w e s x Hpeek He) as [Hpeek' Hruns].
    destruct (IH _ Hpeek' Hrest) as [Hpeek'' Hruns'].
    unfold run in *. cbn [fold_left]. split; [exact Hpeek''|].
    now rewrite Hruns'.
Qed.

(** In a new session a read runs the body once, on the inputs of the
    session. *)
Lemma first_read (w : View) (input0 : Inputs) (g : RandomState) :
  fst (read_view w (init_session input0 g)) = body_of w input0 g
  ∧ run_count w (snd (read_view w (init_session input0 g))) = 1%nat.
Proof.
  destruct w; unfold read, body.
  - split; reflexivity.
  - unfold read_clustered_data.
    change (read_filtered_data data (init_session input0 g))
      with (filtered_data data input0,
            snd (read_filtered_data data (init_session (F := F) input0 g))).
    cbn [snd read_filtered_data fresh init_session filtered_calc cached
         clustered_calc input rng].
    destruct (clustered_data _ _ _ _ _ _) as [v g']. split; reflexivity.
  - split; reflexivity.
Qed.

(** *** A write that changes an input *)

Lemma input_eqb_refl (i : InputId) (a : Inputs) : input_eqb i a a = true.
Proof.
  destruct i; cbn; unfold range_eqb;
    rewrite ?andb_true_iff, ?Qeq_bool_iff, ?Z.eqb_eq, ?String.eqb_eq,
      ?bool_decide_eq_true; try split; reflexivity.
Qed.

(** An event after which the input [i] has another value is a write to
    [i]: the generation of [i] goes up, no generation goes down, the slots
    stay. *)
Lemma step_changes_input (e : Event) (i : InputId) (s : session) :
  input_eqb i (input s) (input (step_session e s)) = false →
  gens (step_session e s) i = S (gens s i)
  ∧ (∀ j, gens s j ≤ gens (step_session e s) j)%nat
  ∧ filtered_calc (step_session e s) = filtered_calc s
  ∧ clustered_calc (step_session e s) = clustered_calc s
  ∧ searched_calc (step_session e s) = searched_calc s.
Proof.
  assert (Hup : ∀ k same input',
             input_eqb i (input s)
               (input (update_input k same input' s)) = false →
             (k ≠ i → input_eqb i (input s) input' = true) →
             let s' := update_input k same input' s in
             gens s' i = S (gens s i)
             ∧ (∀ j, gens s j ≤ gens s' j)%nat
             ∧ filtered_calc s' = filtered_calc s
             ∧ clustered_calc s' = clustered_calc s
             ∧ searched_calc s' = searched_calc s).
  { intros k same input' Hne Hother. unfold update_input in *.
    destruct same; [rewrite input_eqb_refl in Hne; discriminate Hne|].
    cbn in *. destruct (decide (k = i)) as [->|Hk].
    - split; [reflexivity|]. split; [|auto].
      intros j. destruct (decide (i = j)); lia.
    - rewrite (Hother Hk) in Hne. discriminate Hne. }
  destruct e as [v|v|v|v|v|w']; cbn [step].
  1-5: intros Hne; apply Hup; [exact Hne|];
       intros Hk; destruct i; try contradiction; cbn;
       unfold range_eqb;
       rewrite ?andb_true_iff, ?Qeq_bool_iff, ?Z.eqb_eq, ?String.eqb_eq,
         ?bool_decide_eq_true; try split; reflexivity.
  intros Hne. exfalso.
  assert (Hin : input (snd (read_view w' s)) = input s).
  { destruct w'; unfold read.
    - pose proof (read_filtered_data_post s) as H.
      destruct (read_filtered_data data s) as [v s1]. cbn [snd]. tauto.
    - pose proof (read_clustered_data_post s) as H.
      destruct (read_clustered s) as [v s1]. cbn [snd]. tauto.
    - pose proof (read_searched_data_post s) as H.
      destruct (read_searched_data data re_compile s) as [v s1].
      cbn [snd]. tauto. }
  rewrite Hin, input_eqb_refl in Hne. discriminate Hne.
Qed.

(** *** Sessions that started new *)

Lemma stamps_behind_init (input0 : Inputs) (g : RandomState) :
  stamps_behind (init_session (F := F) input0 g).
Proof. repeat split; intros st v H; discriminate H. Qed.

Lemma stamps_behind_update_input (i : InputId) (same : bool)
    (input' : Inputs) (s : session) :
  stamps_behind s → stamps_behind (update_input i same input' s).
Proof.
  intros (Hf & Hc & Hs). unfold update_input.
  destruct same; [now repeat split|].
  assert (Hle : ∀ j, (gens s j
                      ≤ if decide (i = j) then S (gens s j) else gens s j)%nat).
  { intros j. destruct (decide (i = j)); lia. }
  split; [|split]; intros st v Hst; cbn in *.
  - destruct (Hf st v Hst) as (a & b & -> & Ha & Hb).
    exists a, b. split; [reflexivity|].
    split; (etransitivity; [eassumption | apply Hle]).
  - destruct (Hc st v Hst) as (a & b & c & -> & Hb & Hcf).
    exists a, b, c. split; [reflexivity|].
    split; (etransitivity; [eassumption | apply Hle]).
  - destruct (Hs st v Hst) as (a & -> & Ha).
    exists a. split; [reflexivity|].
    etransitivity; [eassumption | apply Hle].
Qed.

Lemma stamps_behind_read_filtered_data (s : session) :
  stamps_behind s → stamps_behind (snd (read_filtered_data data s)).
Proof.
  intros (Hf & Hc & Hs). unfold read_filtered_data.
  destruct (fresh _ (filtered_calc s)); [now repeat split|].
  split; [|split; assumption].
  intros st v [= <- <-]. eexists _, _. split; [reflexivity|].
  split; reflexivity.
Qed.

Lemma stamps_behind_read_searched_data (s : session) :
  stamps_behind s → stamps_behind (snd (read_searched_data data re_compile s)).
Proof.
  intros (Hf & Hc & Hs). unfold read_searched_data.
  destruct (fresh _ (searched_calc s)); [now repeat split|].
  split; [assumption|]. split; [assumption|].
  intros st v [= <- <-]. eexists. split; reflexivity.
Qed.

Lemma stamps_behind_read_clustered_data (s : session) :
  stamps_behind s → stamps_behind (snd (read_clustered s)).
Proof.
  intros Hinv. apply stamps_behind_read_filtered_data in Hinv.
  unfold read_clustered_data.
  destruct (read_filtered_data data s) as [df sA]. cbn [snd] in Hinv.
  destruct Hinv as (Hf & Hc & Hs).
  destruct (fresh _ (clustered_calc sA)); [now repeat split|].
  destruct (clustered_data _ _ _ df (input sA) (rng sA)) as [v g'].
  split; [assumption|]. split; [|assumption].
  intros st v' [= <- <-]. eexists _, _, _. split; [reflexivity|].
  split; reflexivity.
Qed.

Lemma stamps_behind_step (e : Event) (s : session) :
  stamps_behind s → stamps_behind (step_session e s).
Proof.
  intros Hinv.
  destruct e as [v|v|v|v|v|w]; cbn [step];
    try now apply stamps_behind_update_input.
  destruct w; unfold read.
  - pose proof (stamps_behind_read_filtered_data s Hinv) as H.
    now destruct (read_filtered_data data s).
  - pose proof (stamps_behind_read_clustered_data s Hinv) as H.
    now destruct (read_clustered s).
  - pose proof (stamps_behind_read_searched_data s Hinv) as H.
    now destruct (read_searched_data data re_compile s).
Qed.

Lemma stamps_behind_run (events : list Event) (s : session) :
  stamps_behind s → stamps_behind (run_session events s).
Proof.
  revert s. induction events as [|e events IH]; intros s Hinv;
    [exact Hinv|].
  unfold run. cbn [fold_left]. apply IH. now apply stamps_behind_step.
Qed.

(** After an event that changes one of the inputs its body reads, the
    view is Stale: the next read runs the computation. *)
Lemma changed_input_runs (w : View) (i : InputId) (e : Event) (s : session) :
  In i (input_deps w) →
  stamps_behind s →
  input_eqb i (input s) (input (step_session e s)) = false →
  run_count w (snd (read_view w (step_session e s))) = S (run_count w s).
Proof.
  intros Hin (Hf & Hc & Hs) Hne.
  destruct (step_changes_input e i s Hne) as (Hi & Hle & Hfil & Hclu & Hsea).
  set (s' := step_session e s) in *.
  destruct w; unfold read, run_count.
  - unfold read_filtered_data, fresh. rewrite Hfil.
    destruct (cached (filtered_calc s)) as [[st v]|] eqn:Hst;
      [|reflexivity].
    destruct (bool_decide_reflect (st = filtered_stamp s')) as [->|_];
      [|reflexivity].
    exfalso. destruct (Hf _ _ eq_refl) as (a & b & [= <- <-] & Ha & Hb).
    cbn in Hin. destruct Hin as [<-|[<-|[]]]; lia.
  - unfold read_clustered_data.
    pose proof (read_filtered_data_post s') as Hpost.
    destruct (read_filtered_data data s') as [df sA].
    destruct Hpost as (_ & Hgens & _ & HcluA & _).
    unfold fresh. rewrite HcluA, Hclu.
    destruct (cached (clustered_calc s)) as [[st v]|] eqn:Hst.
    + destruct (bool_decide_reflect (st = clustered_stamp sA)) as [->|_].
      * exfalso.
        destruct (Hc _ _ eq_refl) as (a & b & c & [= _ <- <-] & Hb & Hcf).
        rewrite Hgens in Hb, Hcf.
        cbn in Hin. destruct Hin as [<-|[<-|[]]]; lia.
      * destruct (clustered_data _ _ _ df (input sA) (rng sA)) as [v' g'].
        reflexivity.
    + destruct (clustered_data _ _ _ df (input sA) (rng sA)) as [v' g'].
      reflexivity.
  - unfold read_searched_data, fresh. rewrite Hsea.
    destruct (cached (searched_calc s)) as [[st v]|] eqn:Hst;
      [|reflexivity].
    destruct (bool_decide_reflect (st = searched_stamp s')) as [->|_];
      [|reflexivity].
    exfalso. destruct (Hs _ _ eq_refl) as (a & [= <-] & Ha).
    cbn in Hin. destruct Hin as [<-|[]]; lia.
Qed.


End ReactiveProperties.



(** * Further properties of the code *)

(** ** Data loading *)

Lemma fillna_none (x : option Q) : fillna None x = x.
Proof. now destruct x. Qed.

(** After [load_data] a second fill finds nothing to fill: a column is
    whole, or it has no value and no mean. *)
Lemma load_data_cell_filled (raw : Table) (c : NumCol) (r : Row) :
  In r (load_data raw) →
  fillna (Series_mean (column c (load_data raw))) (num_cell c r) = num_cell c r.
Proof.
  intros Hr.
  assert (Hcell : In (num_cell c r) (column c (load_data raw))).
  { unfold column. now apply in_map. }
  rewrite load_data_column in Hcell |- *.
  destruct (dropna (column c raw)) as [|v vs] eqn:Hdrop.
  - assert (Hmean : Series_mean (column c raw) = None).
    { unfold Series_mean. now rewrite Hdrop. }
    rewrite Hmean. rewrite (map_ext _ (fun x => x) fillna_none), map_id.
    rewrite Hmean. apply fillna_none.
  - assert (Hmean : ∃ m, Series_mean (column c raw) = Some m).
    { unfold Series_mean. rewrite Hdrop. eauto. }
    destruct Hmean as [m Hmean]. rewrite Hmean in Hcell.
    apply in_map_iff in Hcell. destruct Hcell as (x & Hx & _).
    rewrite <- Hx. now destruct x.
Qed.

(** X1. [load_data] is idempotent: loading a loaded table changes
    nothing. *)
Theorem load_data_idempotent (raw : Table) :
  load_data (load_data raw) = load_data raw.
Proof.
  unfold load_data at 1.
  etransitivity; [|apply map_id].
  apply map_ext_in. intros r Hr.
  pose proof (fun c => load_data_cell_filled raw c r Hr) as H.
  pose proof (H LadderScore) as H1. pose proof (H LoggedGDP) as H2.
  pose proof (H SocialSupport) as H3.
  pose proof (H HealthyLifeExpectancy) as H4.
  pose proof (H FreedomChoices) as H5. pose proof (H Generosity) as H6.
  pose proof (H Corruption) as H7.
  cbn [num_cell] in H1, H2, H3, H4, H5, H6, H7. cbv beta zeta.
  rewrite H1, H2, H3, H4, H5, H6, H7.
  now destruct r.
Qed.

(** X2. [load_data] keeps the rows: their number, their country names in
    order, and every numeric value that was present, at its place. *)
Theorem load_data_keeps_present_values (raw : Table) :
  length (load_data raw) = length raw
  ∧ map country_name (load_data raw) = map country_name raw
  ∧ ∀ (c : NumCol) (i : nat) (v : Q),
      column c raw !! i = Some (Some v) →
      column c (load_data raw) !! i = Some (Some v).
Proof.
  split; [|split].
  - unfold load_data. apply length_map.
  - unfold load_data. rewrite map_map. reflexivity.
  - intros c i v Hi. rewrite load_data_column.
    rewrite list_lookup_fmap, Hi. reflexivity.
Qed.

(** ** Cluster names *)

Lemma get_cluster_names_outside (id : Z) :
  (id < 0 ∨ 4 ≤ id)%Z → get_cluster_names id = "Cluster " +:+ str id.
Proof.
  intros H. unfold get_cluster_names.
  now rewrite names_lookup_outside.
Qed.

Lemma get_cluster_names_inj (a b : Z) :
  get_cluster_names a = get_cluster_names b → a = b.
Proof.
  assert (Hcases : ∀ id : Z,
             (id = 0 ∨ id = 1 ∨ id = 2 ∨ id = 3 ∨ (id < 0 ∨ 4 ≤ id))%Z)
    by (intros; lia).
  intros H.
  destruct (Hcases a) as [-> | [-> | [-> | [-> | Ha]]]];
    destruct (Hcases b) as [-> | [-> | [-> | [-> | Hb]]]];
    try reflexivity;
    try (vm_compute in H; discriminate H);
    try (rewrite (get_cluster_names_outside b Hb) in H;
         vm_compute get_cluster_names in H; cbn in H; discriminate H);
    try (rewrite (get_cluster_names_outside a Ha) in H;
         vm_compute get_cluster_names in H; cbn in H; discriminate H).
  rewrite (get_cluster_names_outside a Ha), (get_cluster_names_outside b Hb) in H.
  cbn in H. injection H as H. change (str a = str b) in H.
  assert (Hsome : Some a = Some b)
    by (rewrite <- (str_reads_back a), H; apply str_reads_back).
  now injection Hsome.
Qed.

(** X4. Two different cluster ids never get the same name, inside or
    outside the table of the four fixed names (negative ids included). *)
Theorem get_cluster_names_distinct (a b : Z) :
  a ≠ b → get_cluster_names a ≠ get_cluster_names b.
Proof.
  intros Hne Heq. apply Hne. now apply get_cluster_names_inj.
Qed.

Lemma get_cluster_names_distinct_witness :
  get_cluster_names 3 ≠ get_cluster_names (-3).
Proof. apply (get_cluster_names_distinct 3 (-3)). discriminate. Defined.

(** ** Summary statistics *)

Lemma In_dropna (s : list (option Q)) (v : Q) :
  In v (dropna s) ↔ In (Some v) s.
Proof.
  induction s as [|[w|] s IH]; cbn.
  - reflexivity.
  - rewrite IH. split; intros [H|H]; auto; left; congruence.
  - rewrite IH. split; [auto | intros [H|H]; [discriminate | auto]].
Qed.

Lemma fold_min_spec (v : list Q) (x : Q) :
  let r := fold_left (fun a b => if Qle_bool a b then a else b) v x in
  In r (x :: v) ∧ ∀ y, In y (x :: v) → (r <= y)%Q.
Proof.
  revert x. induction v as [|a v IH]; intros x; cbn [fold_left].
  - split; [now left|]. intros y [<-|[]]. apply Qle_refl.
  - destruct (IH (if Qle_bool x a then x else a)) as [Hin Hle].
    assert (Hstep : ((if Qle_bool x a then x else a) <= x
                     ∧ (if Qle_bool x a then x else a) <= a)%Q).
    { destruct (Qle_bool x a) eqn:E.
      - split; [apply Qle_refl | now apply Qle_bool_iff].
      - split; [|apply Qle_refl]. apply Qlt_le_weak, Qnot_le_lt.
        rewrite <- Qle_bool_iff. congruence. }
    split.
    + destruct Hin as [Hin|Hin]; [|now right; right].
      rewrite <- Hin. destruct (Qle_bool x a); [now left | now right; left].
    + intros y [<-|[<-|Hy]].
      * eapply Qle_trans; [apply Hle; now left | apply Hstep].
      * eapply Qle_trans; [apply Hle; now left | apply Hstep].
      * apply Hle. now right.
Qed.

Lemma fold_max_spec (v : list Q) (x : Q) :
  let r := fold_left (fun a b => if Qle_bool a b then b else a) v x in
  In r (x :: v) ∧ ∀ y, In y (x :: v) → (y <= r)%Q.
Proof.
  revert x. induction v as [|a v IH]; intros x; cbn [fold_left].
  - split; [now left|]. intros y [<-|[]]. apply Qle_refl.
  - destruct (IH (if Qle_bool x a then a else x)) as [Hin Hle].
    assert (Hstep : (x <= (if Qle_bool x a then a else x)
                     ∧ a <= (if Qle_bool x a then a else x))%Q).
    { destruct (Qle_bool x a) eqn:E.
      - split; [now apply Qle_bool_iff | apply Qle_refl].
      - split; [apply Qle_refl|]. apply Qlt_le_weak, Qnot_le_lt.
        rewrite <- Qle_bool_iff. congruence. }
    split.
    + destruct Hin as [Hin|Hin]; [|now right; right].
      rewrite <- Hin. destruct (Qle_bool x a); [now right; left | now left].
    + intros y [<-|[<-|Hy]].
      * eapply Qle_trans; [apply Hstep | apply Hle; now left].
      * eapply Qle_trans; [apply Hstep | apply Hle; now left].
      * apply Hle. now right.
Qed.

(** X5. On a table with at least one present ladder score, the minimum
    and the maximum of the summary are scores of the table, and every
    present score lies between them. *)
Theorem summary_min_max (df : Table) :
  (∃ r, In r df ∧ ladder_score r ≠ None) →
  ∃ lo hi : Q,
    min (get_summary_stats df) = Some lo
    ∧ max (get_summary_stats df) = Some hi
    ∧ In (Some lo) (column LadderScore df)
    ∧ In (Some hi) (column LadderScore df)
    ∧ ∀ v, In (Some v) (column LadderScore df) → (lo <= v)%Q ∧ (v <= hi)%Q.
Proof.
  intros (r & Hr & Hsome).
  cbn [get_summary_stats min max].
  set (s := column LadderScore df).
  assert (Hs : ∃ x, In (Some x) s).
  { destruct (ladder_score r) as [x|] eqn:E; [|contradiction].
    exists x. rewrite <- E. unfold s, column. now apply in_map. }
  destruct Hs as [x0 Hx0]. apply In_dropna in Hx0.
  unfold Series_min, Series_max.
  destruct (dropna s) as [|x v] eqn:Hdrop; [destruct Hx0|].
  destruct (fold_min_spec v x) as [Hmin_in Hmin].
  destruct (fold_max_spec v x) as [Hmax_in Hmax].
  eexists _, _. repeat split.
  - apply In_dropna. now rewrite Hdrop.
  - apply In_dropna. now rewrite Hdrop.
  - apply Hmin. rewrite <- Hdrop. now apply In_dropna.
  - apply Hmax. rewrite <- Hdrop. now apply In_dropna.
Qed.

Lemma summary_min_max_witness :
  ∃ lo hi : Q,
    min (get_summary_stats (map ladder_only [4; 7; 5]%Q)) = Some lo
    ∧ max (get_summary_stats (map ladder_only [4; 7; 5]%Q)) = Some hi
    ∧ In (Some lo) (column LadderScore (map ladder_only [4; 7; 5]%Q))
    ∧ In (Some hi) (column LadderScore (map ladder_only [4; 7; 5]%Q))
    ∧ ∀ v, In (Some v) (column LadderScore (map ladder_only [4; 7; 5]%Q)) →
           (lo <= v)%Q ∧ (v <= hi)%Q.
Proof.
  apply (summary_min_max (map ladder_only [4; 7; 5]%Q)).
  exists (ladder_only 4). split; [now left | discriminate].
Defined.

(** ** The filtered view *)

Lemma List_filter_sublist {A : Type} (p : A → bool) (l : list A) :
  List.filter p l `sublist_of` l.
Proof.
  induction l as [|x l IH]; cbn.
  - constructor.
  - destruct (p x); [now apply sublist_skip | now apply sublist_cons].
Qed.

Lemma List_filter_none {A : Type} (p : A → bool) (l : list A) :
  (∀ x, p x = false) → List.filter p l = [].
Proof.
  intros H. induction l as [|x l IH]; cbn; [reflexivity|].
  now rewrite H.
Qed.

Lemma List_filter_filter {A : Type} (p q : A → bool) (l : list A) :
  List.filter p (List.filter q l) = List.filter (fun x => q x && p x) l.
Proof.
  induction l as [|x l IH]; cbn; [reflexivity|].
  destruct (q x); cbn; [|exact IH].
  destruct (p x); now rewrite IH.
Qed.

Lemma filtered_data_leaves_out (data : Table) (input : Inputs) :
  filtered_data data input `sublist_of` data.
Proof.
  rewrite filtered_data_filter.
  etransitivity; apply List_filter_sublist.
Qed.

(** X6. The filtered table is the base table with rows left out: no row is
    added, repeated or moved, so it has at most as many rows. *)
Theorem filtered_data_sublist (data : Table) (input : Inputs) :
  filtered_data data input `sublist_of` data
  ∧ length (filtered_data data input) ≤ length data.
Proof.
  pose proof (filtered_data_leaves_out data input) as H.
  split; [exact H | now apply sublist_length].
Qed.

Lemma in_range_b_inverted (x : option Q) (range : Q * Q) :
  (snd range < fst range)%Q → in_range_b x range = false.
Proof.
  intros Hinv. unfold in_range_b. destruct x as [v|]; [|reflexivity].
  apply andb_false_iff.
  destruct (Qle_bool (fst range) v) eqn:E1; [right | now left].
  destruct (Qle_bool v (snd range)) eqn:E2; [|reflexivity].
  apply Qle_bool_iff in E1, E2. exfalso.
  apply (Qlt_irrefl (fst range)).
  eapply Qle_lt_trans; [eapply Qle_trans; eassumption | exact Hinv].
Qed.

(** X7. A range whose upper end lies under its lower end selects nothing:
    the filtered table is empty, whatever the base table. *)
Theorem filtered_data_inverted_range (data : Table) (input : Inputs) :
  (snd (happiness_range input) < fst (happiness_range input))%Q
  ∨ (snd (gdp_range input) < fst (gdp_range input))%Q →
  filtered_data data input = [].
Proof.
  intros [H|H]; rewrite filtered_data_filter.
  - rewrite (List_filter_none _ data); [reflexivity|].
    intros r. now apply in_range_b_inverted.
  - apply List_filter_none. intros r. now apply in_range_b_inverted.
Qed.

Lemma filtered_data_inverted_range_witness :
  filtered_data
    [mkRow (Some "Finland") (Some 7%Q) (Some 10%Q) None None None None None]
    (mkInputs (8, 3)%Q (0, 20)%Q 4%Z [] "")
  = [].
Proof.
  apply (filtered_data_inverted_range
           [mkRow (Some "Finland") (Some 7%Q) (Some 10%Q) None None None None None]
           (mkInputs (8, 3)%Q (0, 20)%Q 4%Z [] "")).
  left. reflexivity.
Defined.

Lemma in_range_b_mono (x : option Q) (wide narrow : Q * Q) :
  (fst wide <= fst narrow)%Q → (snd narrow <= snd wide)%Q →
  in_range_b x narrow = true → in_range_b x wide = true.
Proof.
  intros Hlo Hhi. rewrite !in_range_b_spec. intros (v & -> & H1 & H2).
  exists v. split; [reflexivity|]. split; eapply Qle_trans; eassumption.
Qed.

(** X8. Narrowing the ranges can be done on the filtered table: with both
    new ranges inside the old ones, filtering the base table by the new
    ranges gives the table that filtering the old result by them gives, so
    narrowing a range never brings a row back. *)
Theorem filtered_data_narrowing (data : Table) (wide narrow : Inputs) :
  (fst (happiness_range wide) <= fst (happiness_range narrow))%Q →
  (snd (happiness_range narrow) <= snd (happiness_range wide))%Q →
  (fst (gdp_range wide) <= fst (gdp_range narrow))%Q →
  (snd (gdp_range narrow) <= snd (gdp_range wide))%Q →
  filtered_data data narrow = filtered_data (filtered_data data wide) narrow
  ∧ filtered_data data narrow `sublist_of` filtered_data data wide.
Proof.
  intros Hh1 Hh2 Hg1 Hg2.
  assert (Heq : filtered_data data narrow
                = filtered_data (filtered_data data wide) narrow).
  { rewrite !filtered_data_filter, !List_filter_filter.
    apply List.filter_ext. intros r.
    pose proof (in_range_b_mono (ladder_score r) _ _ Hh1 Hh2) as Hh.
    pose proof (in_range_b_mono (logged_gdp r) _ _ Hg1 Hg2) as Hg.
    destruct (in_range_b (ladder_score r) (happiness_range narrow));
      destruct (in_range_b (logged_gdp r) (gdp_range narrow));
      destruct (in_range_b (ladder_score r) (happiness_range wide));
      destruct (in_range_b (logged_gdp r) (gdp_range wide));
      cbn; try reflexivity;
      try (specialize (Hh eq_refl); discriminate Hh);
      try (specialize (Hg eq_refl); discriminate Hg). }
  split; [exact Heq|]. rewrite Heq. apply filtered_data_leaves_out.
Qed.

Lemma filtered_data_narrowing_witness :
  let data :=
    [mkRow (Some "Finland") (Some 7%Q) (Some 10%Q) None None None None None;
     mkRow (Some "Chad") (Some 4%Q) (Some 7%Q) None None None None None] in
  let wide := mkInputs (3, 8)%Q (7, 11)%Q 4%Z [] "" in
  let narrow := mkInputs (5, 8)%Q (8, 11)%Q 4%Z [] "" in
  filtered_data data narrow = filtered_data (filtered_data data wide) narrow
  ∧ filtered_data data narrow `sublist_of` filtered_data data wide.
Proof.
  apply (filtered_data_narrowing
           [mkRow (Some "Finland") (Some 7%Q) (Some 10%Q) None None None None None;
            mkRow (Some "Chad") (Some 4%Q) (Some 7%Q) None None None None None]
           (mkInputs (3, 8)%Q (7, 11)%Q 4%Z [] "")
           (mkInputs (5, 8)%Q (8, 11)%Q 4%Z [] ""));
    cbn; unfold Qle; cbn; lia.
Defined.

(** ** The searched view *)

(** X9. The letter case of the search string does not matter: two
    non-empty search strings with the same lowered form give the same
    outcome, table or error. *)
Theorem searched_data_ignores_case (data : Table)
    (re_compile : string → option (string → bool)) (input input' : Inputs) :
  country_search input ≠ EmptyString →
  country_search input' ≠ EmptyString →
  lower (country_search input) = lower (country_search input') →
  searched_data data re_compile input = searched_data data re_compile input'.
Proof.
  intros Hne Hne' Hlow. rewrite !searched_data_unfold, Hlow.
  destruct (String.eqb_spec (country_search input) EmptyString);
    [contradiction|].
  destruct (String.eqb_spec (country_search input') EmptyString);
    [contradiction|].
  reflexivity.
Qed.

Lemma searched_data_ignores_case_witness :
  let data :=
    [mkRow (Some "Finland") (Some 7%Q) (Some 10%Q) None None None None None] in
  searched_data data re_plain (mkInputs (0, 10)%Q (0, 20)%Q 4%Z [] "FIN")
  = searched_data data re_plain (mkInputs (0, 10)%Q (0, 20)%Q 4%Z [] "fIn").
Proof.
  apply (searched_data_ignores_case
           [mkRow (Some "Finland") (Some 7%Q) (Some 10%Q) None None None None None]
           re_plain
           (mkInputs (0, 10)%Q (0, 20)%Q 4%Z [] "FIN")
           (mkInputs (0, 10)%Q (0, 20)%Q 4%Z [] "fIn"));
    [discriminate | discriminate | reflexivity].
Defined.

(** X10. A searched table has at most 20 rows and is the base table with
    rows left out: rows keep their order, none is repeated or added. *)
Theorem searched_data_sublist (data : Table)
    (re_compile : string → option (string → bool)) (input : Inputs)
    (t : Table) :
  searched_data data re_compile input = Ok t →
  (length t ≤ 20)%nat ∧ t `sublist_of` data.
Proof.
  rewrite searched_data_unfold.
  destruct (String.eqb _ _).
  - intros [= <-]. split; [apply firstn_le_length | apply sublist_take].
  - destruct (nameless data); [discriminate|].
    destruct (re_compile _) as [search|]; [|discriminate].
    intros [= <-]. split; [apply firstn_le_length|].
    etransitivity; [apply sublist_take | apply List_filter_sublist].
Qed.

Lemma searched_data_sublist_witness :
  let data :=
    [mkRow (Some "Finland") (Some 7%Q) (Some 10%Q) None None None None None;
     mkRow (Some "Chad") (Some 4%Q) (Some 7%Q) None None None None None] in
  (length [mkRow (Some "Chad") (Some 4%Q) (Some 7%Q) None None None None None]
   ≤ 20)%nat
  ∧ [mkRow (Some "Chad") (Some 4%Q) (Some 7%Q) None None None None None]
    `sublist_of` data.
Proof.
  apply (searched_data_sublist
           [mkRow (Some "Finland") (Some 7%Q) (Some 10%Q) None None None None None;
            mkRow (Some "Chad") (Some 4%Q) (Some 7%Q) None None None None None]
           re_plain
           (mkInputs (0, 10)%Q (0, 20)%Q 4%Z [] "cha")).
  reflexivity.
Defined.

(** X11. The errors of a search with an ASCII search string. An empty
    search never raises. A non-empty search raises [AttributeError] when
    the base table has rows and none of them has a name, whatever the
    search string; on any other base table it raises exactly when the
    lowered search string is rejected as a pattern, with the error of
    [re.compile] on that pattern, even on a table without rows. *)
Theorem searched_data_raises_iff (data : Table)
    (re_compile : string → option (string → bool)) (input : Inputs)
    (e : exn) :
  isascii (country_search input) = true →
  searched_data data re_compile input = Raise e
  ↔ country_search input ≠ EmptyString
    ∧ (nameless data = true ∧ e = AttributeError
       ∨ nameless data = false
         ∧ re_compile (lower (country_search input)) = None
         ∧ e = ReError (lower (country_search input))).
Proof.
  intros _. rewrite searched_data_unfold.
  destruct (String.eqb_spec (country_search input) EmptyString) as [He|Hne].
  - split; [discriminate | now intros (H & _)].
  - destruct (nameless data).
    + split.
      * intros [= <-]. auto.
      * intros (_ & [(_ & ->)|(H & _)]); [reflexivity | discriminate H].
    + destruct (re_compile _) as [search|].
      * split; [discriminate|].
        intros (_ & [(H & _)|(_ & H & _)]); discriminate H.
      * split.
        -- intros [= <-]. auto.
        -- intros (_ & [(H & _)|(_ & _ & ->)]);
             [discriminate H | reflexivity].
Qed.

Lemma searched_data_raises_iff_witness :
  let data :=
    [mkRow None (Some 4%Q) (Some 7%Q) None None None None None;
     mkRow None (Some 6%Q) (Some 9%Q) None None None None None] in
  let input := mkInputs (0, 10)%Q (0, 20)%Q 4%Z [] "Fin" in
  searched_data data re_plain input = Raise AttributeError
  ↔ country_search input ≠ EmptyString
    ∧ (nameless data = true ∧ AttributeError = AttributeError
       ∨ nameless data = false
         ∧ re_plain (lower (country_search input)) = None
         ∧ AttributeError = ReError (lower (country_search input))).
Proof.
  apply (searched_data_raises_iff
           [mkRow None (Some 4%Q) (Some 7%Q) None None None None None;
            mkRow None (Some 6%Q) (Some 9%Q) None None None None None]
           re_plain
           (mkInputs (0, 10)%Q (0, 20)%Q 4%Z [] "Fin")
           AttributeError).
  reflexivity.
Defined.

(** X12. On ASCII text, for a non-empty search string without special
    characters of the regular expressions: on a base table with rows and
    no name in any of them the search raises [AttributeError]; on any other
    base table the searched table is exactly the first 20 rows whose name
    is present and contains the search string, letter case ignored. *)
Theorem searched_data_plain_exact (data : Table) (input : Inputs) :
  country_search input ≠ EmptyString →
  plain (country_search input) = true →
  isascii (country_search input) = true →
  ascii_names data = true →
  searched_data data re_plain input
  = if nameless data then Raise AttributeError
    else Ok (firstn 20
               (List.filter
                  (fun r => match country_name r with
                            | Some n => contains_ci n (country_search input)
                            | None => false
                            end)
                  data)).
Proof.
  intros Hne Hplain _ _. rewrite searched_data_unfold.
  destruct (String.eqb_spec (country_search input) EmptyString) as [He|_];
    [contradiction|].
  destruct (nameless data); [reflexivity|].
  unfold re_plain. rewrite (re_parse_plain _ (lower_plain _ Hplain)). cbn.
  do 2 f_equal. apply List.filter_ext. intros r. unfold name_matches.
  destruct (country_name r) as [n|]; [|reflexivity].
  unfold contains_ci. apply re_search_lits.
Qed.

Lemma searched_data_plain_exact_witness :
  let data :=
    [mkRow (Some "Finland") (Some 7%Q) (Some 10%Q) None None None None None;
     mkRow None (Some 4%Q) (Some 7%Q) None None None None None] in
  let input := mkInputs (0, 10)%Q (0, 20)%Q 4%Z [] "LAND" in
  searched_data data re_plain input
  = if nameless data then Raise AttributeError
    else Ok (firstn 20
               (List.filter
                  (fun r => match country_name r with
                            | Some n => contains_ci n (country_search input)
                            | None => false
                            end)
                  data)).
Proof.
  apply (searched_data_plain_exact
           [mkRow (Some "Finland") (Some 7%Q) (Some 10%Q) None None None None None;
            mkRow None (Some 4%Q) (Some 7%Q) None None None None None]
           (mkInputs (0, 10)%Q (0, 20)%Q 4%Z [] "LAND"));
    [discriminate | reflexivity | reflexivity | reflexivity].
Defined.

(** ** The clustered view *)

Lemma feature_map_labels (f l : string) :
  feature_map !! f = Some l → In l default_features.
Proof.
  unfold feature_map. intros H. apply elem_of_list_to_map_2 in H.
  repeat (apply elem_of_cons in H as [H|H];
          [injection H as -> ->; cbn; tauto|]).
  now apply elem_of_nil in H.
Qed.

Lemma default_features_resolve (l : string) :
  In l default_features → ∃ c, col_of_name l = Some c.
Proof.
  cbn. intros [<-|[<-|[<-|[<-|[<-|[]]]]]]; eexists; reflexivity.
Qed.

Lemma resolve_columns_labels (fs : list string) :
  Forall (fun l => In l default_features) fs →
  ∃ cols, resolve_columns fs = Ok cols ∧ length cols = length fs.
Proof.
  induction 1 as [|l fs Hl _ IH]; cbn [resolve_columns].
  - now exists [].
  - destruct (default_features_resolve l Hl) as [c ->].
    destruct IH as (cols & -> & Hlen). exists (c :: cols).
    split; [reflexivity | cbn; now rewrite Hlen].
Qed.

Lemma selected_features_labels (input : Inputs) :
  Forall (fun l => In l default_features) (selected_features input)
  ∧ selected_features input ≠ [].
Proof.
  unfold selected_features.
  assert (H : Forall (fun l => In l default_features)
                (omap (fun f => feature_map !! f) (cluster_features input))).
  { apply Forall_forall. intros l Hl.
    apply list_elem_of_omap in Hl. destruct Hl as (f & _ & Hf).
    now apply (feature_map_labels f). }
  destruct (omap _ (cluster_features input)) as [|l ls].
  - split; [|discriminate]. repeat constructor.
  - split; [exact H | discriminate].
Qed.

(** X13. Whatever the user selects, [clustered_data] hands
    [perform_clustering] at least one label, and every label is a numeric
    column of the table: the selection of the columns never raises a
    KeyError. *)
Theorem selected_features_resolve (input : Inputs) :
  ∃ cols : list NumCol,
    resolve_columns (selected_features input) = Ok cols
    ∧ cols ≠ []
    ∧ length cols = length (selected_features input).
Proof.
  destruct (selected_features_labels input) as [Hall Hne].
  destruct (resolve_columns_labels _ Hall) as (cols & Hcols & Hlen).
  exists cols. repeat split; [exact Hcols | | exact Hlen].
  intros ->. destruct (selected_features input); [contradiction | discriminate].
Qed.

Lemma zip_with_base_row (df : Table) (clusters : list Z) :
  length df = length clusters →
  map base_row
    (zip_with
       (fun r c =>
          {| base_row := r; Cluster := c; Cluster_Name := get_cluster_names c |})
       df clusters)
  = df
  ∧ map Cluster
      (zip_with
         (fun r c =>
            {| base_row := r; Cluster := c; Cluster_Name := get_cluster_names c |})
         df clusters)
    = clusters.
Proof.
  revert clusters. induction df as [|r df IH]; intros [|c clusters] Hlen;
    try discriminate Hlen; cbn.
  - now split.
  - injection Hlen as Hlen. destruct (IH clusters Hlen) as [-> ->]. now split.
Qed.

Lemma assign_clusters_ok (df : Table) (clusters : list Z)
    (rows : list ClusteredRow) :
  assign_clusters df clusters = Ok rows →
  map base_row rows = df
  ∧ map Cluster rows = clusters
  ∧ Forall (fun r => Cluster_Name r = get_cluster_names (Cluster r)) rows.
Proof.
  unfold assign_clusters.
  destruct (Nat.eqb_spec (length df) (length clusters)) as [Hlen|];
    [|discriminate].
  intros [= <-]. destruct (zip_with_base_row df clusters Hlen) as [H1 H2].
  split; [exact H1|]. split; [exact H2|].
  apply Forall_forall. intros r Hr.
  apply elem_of_zip_with in Hr.
  destruct Hr as (x & c & -> & _ & _). reflexivity.
Qed.

Section ClusteredViewProperties.

Context {F RandomState : Type}.
Variable StandardScaler_fit_transform :
  list (list (option Q)) → result (list (list F)).
Variable RandomState_seed : Z → RandomState.
Variable kmeans_run :
  Z → Z → list (list F) → RandomState → result (list Z) * RandomState.

(** X14. When [clustered_data] succeeds, its frame is the filtered table
    row for row, in order, each row with a cluster id and the name
    [get_cluster_names] gives that id; the labels it returns are the
    selected features. *)
Theorem clustered_data_rows (filtered : Table) (input : Inputs)
    (g : RandomState) (rows : list ClusteredRow) (X_scaled : list (list F))
    (features : list string) :
  fst (clustered_data StandardScaler_fit_transform RandomState_seed kmeans_run
         filtered input g)
  = Ok (rows, X_scaled, features) →
  map base_row rows = filtered
  ∧ Forall (fun r => Cluster_Name r = get_cluster_names (Cluster r)) rows
  ∧ features = selected_features input.
Proof.
  unfold clustered_data.
  destruct (perform_clustering _ _ _ filtered (n_clusters input) _ g)
    as [[[clusters X]|e] g']; cbn; [|discriminate].
  destruct (assign_clusters filtered clusters) as [rows'|e] eqn:Hassign;
    cbn; [|discriminate].
  intros [= <- <- <-].
  destruct (assign_clusters_ok _ _ _ Hassign) as (H1 & _ & H3).
  auto.
Qed.

End ClusteredViewProperties.

Lemma clustered_data_rows_witness :
  let filtered :=
    [mkRow (Some "Finland") (Some 7%Q) (Some 10%Q) None None None None None;
     mkRow (Some "Denmark") (Some 6%Q) (Some 11%Q) None None None None None] in
  let input := mkInputs (0, 10)%Q (0, 20)%Q 2%Z ["gdp"] "" in
  let rows :=
    [mkClusteredRow
       (mkRow (Some "Finland") (Some 7%Q) (Some 10%Q) None None None None None)
       0 "Very Happy";
     mkClusteredRow
       (mkRow (Some "Denmark") (Some 6%Q) (Some 11%Q) None None None None None)
       0 "Very Happy"] in
  map base_row rows = filtered
  ∧ Forall (fun r => Cluster_Name r = get_cluster_names (Cluster r)) rows
  ∧ ["Logged GDP per capita"] = selected_features input.
Proof.
  apply (clustered_data_rows keep_scaler (fun _ => tt) single_cluster
           [mkRow (Some "Finland") (Some 7%Q) (Some 10%Q) None None None None None;
            mkRow (Some "Denmark") (Some 6%Q) (Some 11%Q) None None None None None]
           (mkInputs (0, 10)%Q (0, 20)%Q 2%Z ["gdp"] "") tt
           _ [[10%Q]; [11%Q]] ["Logged GDP per capita"]).
  vm_compute. reflexivity.
Defined.

(** ** The scatter plot *)

Lemma tuple_in_spec (x : string) (t : list string) :
  tuple_in x t = true ↔ In x t.
Proof.
  unfold tuple_in. rewrite existsb_exists. split.
  - intros (y & Hy & He). apply String.eqb_eq in He. now subst.
  - intros H. exists x. split; [exact H | apply String.eqb_refl].
Qed.

Lemma tuple_in_ext (x : string) (t t' : list string) :
  (In x t ↔ In x t') → tuple_in x t = tuple_in x t'.
Proof.
  intros H. destruct (tuple_in x t) eqn:E, (tuple_in x t') eqn:E';
    try reflexivity.
  - apply tuple_in_spec, H, tuple_in_spec in E. congruence.
  - apply tuple_in_spec, H, tuple_in_spec in E'. congruence.
Qed.

(** X15. The scatter plot reads the factor selection only for "gdp",
    "social" and "health": two selections that agree on these three give
    the same figure, so the order of the selection, repetitions and the
    other choices of the checkbox group ("freedom", "generosity",
    "corruption") change nothing. *)
Theorem scatter_plot_factors (df : Table) (factors factors' : list string) :
  (∀ f, In f ["gdp"; "social"; "health"] → (In f factors ↔ In f factors')) →
  scatter_plot df factors = scatter_plot df factors'.
Proof.
  intros H. unfold scatter_plot.
  rewrite (tuple_in_ext "gdp" factors factors') by (apply H; cbn; tauto).
  rewrite (tuple_in_ext "social" factors factors') by (apply H; cbn; tauto).
  rewrite (tuple_in_ext "health" factors factors') by (apply H; cbn; tauto).
  reflexivity.
Qed.

Lemma scatter_plot_factors_witness :
  let df :=
    [mkRow (Some "Finland") (Some 7%Q) (Some 10%Q) (Some (9 # 10)) (Some 71%Q)
       None None None] in
  scatter_plot df ["corruption"; "health"; "gdp"; "freedom"; "health"]
  = scatter_plot df ["gdp"; "health"].
Proof.
  apply (scatter_plot_factors
           [mkRow (Some "Finland") (Some 7%Q) (Some 10%Q) (Some (9 # 10))
              (Some 71%Q) None None None]
           ["corruption"; "health"; "gdp"; "freedom"; "health"]
           ["gdp"; "health"]).
  intros f [<-|[<-|[<-|[]]]]; cbn; split; intros H;
    repeat (destruct H as [H|H]; try discriminate H); tauto.
Defined.

Lemma scatter_plot_traces (df : Table) (factors : list string) (t : Scatter) :
  In t (scatter_plot df factors) →
  trace_x t = column LadderScore df
  ∧ (trace_y t = column LoggedGDP df ∧ trace_name t = "GDP vs Happiness"
     ∨ trace_y t = mul_scalar (column SocialSupport df) 10
       ∧ trace_name t = "Social Support vs Happiness"
     ∨ trace_y t = div_scalar (column HealthyLifeExpectancy df) 10
       ∧ trace_name t = "Life Expectancy vs Happiness").
Proof.
  unfold scatter_plot.
  destruct (tuple_in "gdp" factors), (tuple_in "social" factors),
    (tuple_in "health" factors); cbn;
    intros H; repeat (destruct H as [<-|H]; [cbn; tauto|]); destruct H.
Qed.

Lemma filtered_data_rows (data : Table) (input : Inputs) (r : Row) :
  In r (filtered_data data input) →
  in_range (ladder_score r) (happiness_range input)
  ∧ in_range (logged_gdp r) (gdp_range input).
Proof.
  rewrite filtered_data_filter. intros Hr.
  apply filter_In in Hr. destruct Hr as [Hr Hg].
  apply filter_In in Hr. destruct Hr as [_ Hh].
  now rewrite !in_range_b_spec in *.
Qed.

(** X16. Every trace of the scatter plot drawn from the filtered table has
    one point per filtered row, every point has its happiness score on the
    x axis, present and inside the happiness range, and the y values of the
    GDP trace are present and inside the GDP range. *)
Theorem scatter_plot_shows_filtered_rows (data : Table) (input : Inputs)
    (factors : list string) (t : Scatter) :
  In t (scatter_plot (filtered_data data input) factors) →
  length (trace_x t) = length (filtered_data data input)
  ∧ length (trace_y t) = length (filtered_data data input)
  ∧ (∀ x, In x (trace_x t) → in_range x (happiness_range input))
  ∧ (trace_name t = "GDP vs Happiness" →
     ∀ y, In y (trace_y t) → in_range y (gdp_range input)).
Proof.
  intros Ht. apply scatter_plot_traces in Ht. destruct Ht as [Hx Hy].
  rewrite Hx. split; [apply length_map|]. split; [|split].
  - destruct Hy as [[-> _]|[[-> _]|[-> _]]];
      unfold mul_scalar, div_scalar, column; now rewrite ?length_map.
  - intros x Hin. unfold column in Hin. apply in_map_iff in Hin.
    destruct Hin as (r & <- & Hr). now apply filtered_data_rows in Hr.
  - intros Hname y Hin.
    destruct Hy as [[Hy _]|[[_ Hn]|[_ Hn]]];
      [|rewrite Hn in Hname; discriminate Hname..].
    rewrite Hy in Hin. unfold column in Hin. apply in_map_iff in Hin.
    destruct Hin as (r & <- & Hr). now apply filtered_data_rows in Hr.
Qed.

Lemma scatter_plot_shows_filtered_rows_witness :
  let data :=
    [mkRow (Some "Finland") (Some 7%Q) (Some 10%Q) (Some (9 # 10)) (Some 71%Q)
       None None None;
     mkRow (Some "Chad") (Some 4%Q) (Some 7%Q) (Some (6 # 10)) (Some 53%Q)
       None None None] in
  let input := mkInputs (5, 8)%Q (7, 11)%Q 4%Z [] "" in
  let t :=
    mkScatter "GDP vs Happiness" [Some 7%Q] [Some 10%Q] "blue" in
  length (trace_x t) = length (filtered_data data input)
  ∧ length (trace_y t) = length (filtered_data data input)
  ∧ (∀ x, In x (trace_x t) → in_range x (happiness_range input))
  ∧ (trace_name t = "GDP vs Happiness" →
     ∀ y, In y (trace_y t) → in_range y (gdp_range input)).
Proof.
  apply (scatter_plot_shows_filtered_rows
           [mkRow (Some "Finland") (Some 7%Q) (Some 10%Q) (Some (9 # 10))
              (Some 71%Q) None None None;
            mkRow (Some "Chad") (Some 4%Q) (Some 7%Q) (Some (6 # 10))
              (Some 53%Q) None None None]
           (mkInputs (5, 8)%Q (7, 11)%Q 4%Z [] "")
           ["gdp"; "social"]
           (mkScatter "GDP vs Happiness" [Some 7%Q] [Some 10%Q] "blue")).
  left. reflexivity.
Defined.

(** ** The 3-D plot of the clusters *)

Lemma ndarray_column_inside {F : Type} (X : list (list F)) (j : nat) :
  Forall (fun r => (j < length r)%nat) X →
  ∃ c, ndarray_column X j = Shown c
       ∧ Forall2 (fun r v => r !! j = Some v) X c.
Proof.
  intros H. unfold ndarray_column.
  destruct (mapM (fun r : list F => r !! j) X) as [c|] eqn:E.
  - exists c. split; [reflexivity | now apply mapM_Some_1].
  - apply mapM_None_1, Exists_exists in E. destruct E as (r & Hr & Hnone).
    rewrite Forall_forall in H. specialize (H r Hr).
    apply lookup_lt_is_Some_2 in H. rewrite Hnone in H. now destruct H.
Qed.

Lemma ndarray_column_outside {F : Type} (X : list (list F)) (j : nat) :
  Exists (fun r => (length r ≤ j)%nat) X →
  ndarray_column X j = Failed (IndexError j (shape1 X)).
Proof.
  intros H. unfold ndarray_column.
  rewrite (mapM_None_2 (fun r : list F => r !! j) X); [reflexivity|].
  eapply Exists_impl; [exact H|]. intros r Hr. now apply lookup_ge_None_2.
Qed.

Lemma cluster_3d_plot_single_column {F : Type} (df : list ClusteredRow)
    (X_scaled : list (list F)) (features : list string) (input : Inputs) :
  X_scaled ≠ [] →
  Forall (fun r => length r = 1%nat) X_scaled →
  cluster_3d_plot (Ok (df, X_scaled, features)) input
  = Failed (IndexError 1 1).
Proof.
  intros Hne Hrows. unfold cluster_3d_plot.
  destruct (ndarray_column_inside X_scaled 0) as (x & -> & _).
  { eapply Forall_impl; [exact Hrows|]. intros r Hr. cbn in Hr. lia. }
  cbn. rewrite (ndarray_column_outside X_scaled 1).
  - destruct X_scaled as [|r X]; [contradiction|].
    apply Forall_cons in Hrows. destruct Hrows as [Hr _].
    cbn [shape1]. rewrite Hr. reflexivity.
  - destruct X_scaled as [|r X]; [contradiction|].
    apply Forall_cons in Hrows. destruct Hrows as [Hr _].
    apply Exists_cons_hd. lia.
Qed.

Lemma resolve_columns_length (fs : list string) (cols : list NumCol) :
  resolve_columns fs = Ok cols → length cols = length fs.
Proof.
  revert cols. induction fs as [|f fs IH]; intros cols; cbn [resolve_columns].
  - now intros [= <-].
  - destruct (col_of_name f); [|discriminate].
    destruct (resolve_columns fs) as [cs|]; unfold mbind, result_bind;
      [|discriminate].
    intros [= <-]. cbn. now rewrite (IH cs eq_refl).
Qed.

(** The scaler stand-in returns an array of the shape of its argument. *)
Lemma keep_scaler_shape (X : list (list (option Q))) (X' : list (list Q)) :
  keep_scaler X = Ok X' →
  Forall2 (fun r r' => length r' = length r) X X'.
Proof.
  unfold keep_scaler. intros [= <-].
  induction X as [|r X IH]; cbn; constructor; [apply length_map | exact IH].
Qed.

Section ClusterPlotProperties.

Context {F RandomState : Type}.
Variable StandardScaler_fit_transform :
  list (list (option Q)) → result (list (list F)).
Variable RandomState_seed : Z → RandomState.
Variable kmeans_run :
  Z → Z → list (list F) → RandomState → result (list Z) * RandomState.

(** The standardized array has the shape of the array given to the
    scaler. *)
Hypothesis fit_transform_shape :
  ∀ X X', StandardScaler_fit_transform X = Ok X' →
          Forall2 (fun r r' => length r' = length r) X X'.

(** X17. With a single clustering feature, which is the case when the user
    selects none, the 3-D plot cannot be drawn: on a non-empty filtered
    table every successful clustering is followed by an IndexError, the y
    axis asking for column 1 of a one-column array. *)
Theorem cluster_3d_plot_one_feature_raises (filtered : Table)
    (input : Inputs) (g : RandomState) (v : ClusteredValue F)
    (rows : list ClusteredRow) (X_scaled : list (list F))
    (features : list string) :
  length (selected_features input) = 1%nat →
  filtered ≠ [] →
  v = fst (clustered_data StandardScaler_fit_transform RandomState_seed
             kmeans_run filtered input g) →
  v = Ok (rows, X_scaled, features) →
  cluster_3d_plot v input = Failed (IndexError 1 1).
Proof.
  intros Hone Hne -> Hv. rewrite Hv.
  apply cluster_3d_plot_single_column.
  - unfold clustered_data, perform_clustering in Hv.
    destruct (resolve_columns (selected_features input)) as [cols|];
      [|discriminate Hv].
    destruct (StandardScaler_fit_transform (feature_matrix filtered cols))
      as [Xs|] eqn:Hscale; [|discriminate Hv].
    cbn in Hv.
    destruct (fst (kmeans_run _ _ Xs _)) as [clusters|]; [|discriminate Hv].
    cbn in Hv.
    destruct (assign_clusters filtered clusters); [|discriminate Hv].
    cbn in Hv. injection Hv as _ <- _.
    apply fit_transform_shape in Hscale.
    intros ->. apply Forall2_nil_inv_r in Hscale.
    unfold feature_matrix in Hscale. destruct filtered; [contradiction|].
    discriminate Hscale.
  - unfold clustered_data, perform_clustering in Hv.
    destruct (resolve_columns (selected_features input)) as [cols|] eqn:Hcols;
      [|discriminate Hv].
    destruct (StandardScaler_fit_transform (feature_matrix filtered cols))
      as [Xs|] eqn:Hscale; [|discriminate Hv].
    cbn in Hv.
    destruct (fst (kmeans_run _ _ Xs _)) as [clusters|]; [|discriminate Hv].
    cbn in Hv.
    destruct (assign_clusters filtered clusters); [|discriminate Hv].
    cbn in Hv. injection Hv as _ <- _.
    apply fit_transform_shape in Hscale.
    apply resolve_columns_length in Hcols. rewrite Hone in Hcols.
    apply Forall_forall. intros r' Hr'.
    apply list_elem_of_lookup in Hr'. destruct Hr' as [i Hi].
    destruct (Forall2_lookup_r _ _ _ _ _ Hscale Hi) as (r & Hr & ->).
    unfold feature_matrix in Hr. apply list_lookup_fmap_Some in Hr.
    destruct Hr as (r0 & -> & _). now rewrite length_map.
Qed.

End ClusterPlotProperties.

Lemma cluster_3d_plot_one_feature_raises_witness :
  let filtered :=
    [mkRow (Some "Finland") (Some 7%Q) (Some 10%Q) None None None None None;
     mkRow (Some "Denmark") (Some 6%Q) (Some 11%Q) None None None None None] in
  let input := mkInputs (0, 10)%Q (0, 20)%Q 2%Z [] "" in
  cluster_3d_plot
    (fst (clustered_data keep_scaler (fun _ => tt) single_cluster
            filtered input tt))
    input
  = Failed (IndexError 1 1).
Proof.
  eapply (cluster_3d_plot_one_feature_raises keep_scaler (fun _ => tt)
            single_cluster keep_scaler_shape
            [mkRow (Some "Finland") (Some 7%Q) (Some 10%Q) None None None None None;
             mkRow (Some "Denmark") (Some 6%Q) (Some 11%Q) None None None None None]
            (mkInputs (0, 10)%Q (0, 20)%Q 2%Z [] "") tt);
    [reflexivity | discriminate | reflexivity | vm_compute; reflexivity].
Defined.

(** X18. On a standardized array with rows and [m >= 2] columns the 3-D
    plot is drawn: one marker per row of the array, x and y from columns 0
    and 1, z from column 2 when there is one; with exactly two columns the z
    axis repeats the x axis. The colours are the cluster ids, the title
    names the cluster count. *)
Theorem cluster_3d_plot_axes {F : Type} (df : list ClusteredRow)
    (X_scaled : list (list F)) (features : list string) (input : Inputs)
    (m : nat) :
  X_scaled ≠ [] →
  Forall (fun r => length r = m) X_scaled →
  (2 ≤ m)%nat →
  ∃ fig : Scatter3d F,
    cluster_3d_plot (Ok (df, X_scaled, features)) input = Shown fig
    ∧ Forall2 (fun r v => r !! 0%nat = Some v) X_scaled (scatter_x fig)
    ∧ Forall2 (fun r v => r !! 1%nat = Some v) X_scaled (scatter_y fig)
    ∧ Forall2 (fun r v => r !! (if (2 <? m)%nat then 2%nat else 0%nat) = Some v)
        X_scaled (scatter_z fig)
    ∧ (m = 2%nat → scatter_z fig = scatter_x fig)
    ∧ scatter_color fig = map Cluster df
    ∧ scatter_title fig
      = "K-Means Clustering (k=" +:+ str (n_clusters input) +:+ ")".
Proof.
  intros Hne Hrows Hm.
  assert (Hshape : shape1 X_scaled = m).
  { destruct X_scaled as [|r X]; [contradiction|].
    apply Forall_cons in Hrows. now destruct Hrows. }
  assert (Hcol : ∀ j, (j < m)%nat →
             ∃ c, ndarray_column X_scaled j = Shown c
                  ∧ Forall2 (fun r v => r !! j = Some v) X_scaled c).
  { intros j Hj. apply ndarray_column_inside.
    eapply Forall_impl; [exact Hrows|]. intros r Hr. cbn in Hr. lia. }
  destruct (Hcol 0%nat ltac:(lia)) as (x & Hx & Hx2).
  destruct (Hcol 1%nat ltac:(lia)) as (y & Hy & Hy2).
  unfold cluster_3d_plot. rewrite Hx, Hy, Hshape.
  destruct (2 <? m)%nat eqn:E.
  - apply Nat.ltb_lt in E. destruct (Hcol 2%nat E) as (z & Hz & Hz2).
    rewrite Hz. eexists. split; [reflexivity|]. cbn.
    repeat split; try assumption. lia.
  - eexists. split; [reflexivity|]. cbn. repeat split; assumption.
Qed.

Lemma cluster_3d_plot_axes_witness :
  ∃ fig : Scatter3d Q,
    cluster_3d_plot
      (Ok ([mkClusteredRow (ladder_only 7) 0 "Very Happy";
            mkClusteredRow (ladder_only 4) 1 "Happy"],
           [[1; 2]; [-1; -2]]%Q, ["Ladder score"; "Social support"]))
      (mkInputs (0, 10)%Q (0, 20)%Q 2%Z ["ladder"; "social"] "")
    = Shown fig
    ∧ Forall2 (fun r v => r !! 0%nat = Some v) [[1; 2]; [-1; -2]]%Q
        (scatter_x fig)
    ∧ Forall2 (fun r v => r !! 1%nat = Some v) [[1; 2]; [-1; -2]]%Q
        (scatter_y fig)
    ∧ Forall2 (fun r v => r !! (if (2 <? 2)%nat then 2%nat else 0%nat) = Some v)
        [[1; 2]; [-1; -2]]%Q (scatter_z fig)
    ∧ (2%nat = 2%nat → scatter_z fig = scatter_x fig)
    ∧ scatter_color fig
      = map Cluster
          [mkClusteredRow (ladder_only 7) 0 "Very Happy";
           mkClusteredRow (ladder_only 4) 1 "Happy"]
    ∧ scatter_title fig
      = "K-Means Clustering (k="
        +:+ str (n_clusters
                   (mkInputs (0, 10)%Q (0, 20)%Q 2%Z ["ladder"; "social"] ""))
        +:+ ")".
Proof.
  apply (cluster_3d_plot_axes
           [mkClusteredRow (ladder_only 7) 0 "Very Happy";
            mkClusteredRow (ladder_only 4) 1 "Happy"]
           [[1; 2]; [-1; -2]]%Q ["Ladder score"; "Social support"]
           (mkInputs (0, 10)%Q (0, 20)%Q 2%Z ["ladder"; "social"] "") 2).
  - discriminate.
  - repeat constructor.
  - lia.
Defined.

(** ** The cluster summary *)

Lemma insert_int_spec (x : Z) (l : list Z) :
  StronglySorted Z.lt l → ¬ In x l →
  StronglySorted Z.lt (insert_int x l)
  ∧ ∀ y, In y (insert_int x l) ↔ y = x ∨ In y l.
Proof.
  induction l as [|a l IH]; intros Hs Hx; cbn.
  - split; [repeat constructor|]. intros y. cbn. intuition congruence.
  - apply StronglySorted_inv in Hs. destruct Hs as [Hs Ha].
    rewrite Forall_forall in Ha.
    destruct (Z.leb_spec x a) as [Hle|Hgt].
    + assert (Hlt : (x < a)%Z).
      { destruct (Z.eq_dec x a) as [->|]; [|lia]. exfalso. apply Hx. now left. }
      split.
      * constructor; [now constructor; [|apply Forall_forall]|].
        apply Forall_forall. intros y Hy. apply list_elem_of_In in Hy.
        destruct Hy as [<-|Hy]; [exact Hlt|].
        apply list_elem_of_In, Ha in Hy. lia.
      * intros y. cbn. intuition congruence.
    + destruct IH as [IHs IHin]; [exact Hs | intros H; apply Hx; now right|].
      split.
      * constructor; [exact IHs|]. apply Forall_forall. intros y Hy.
        apply list_elem_of_In, IHin in Hy. destruct Hy as [->|Hy]; [lia|].
        apply Ha. now apply list_elem_of_In.
      * intros y. cbn. rewrite IHin. intuition congruence.
Qed.

Lemma sorted_spec (l : list Z) :
  List.NoDup l →
  StronglySorted Z.lt (sorted l) ∧ ∀ y, In y (sorted l) ↔ In y l.
Proof.
  induction 1 as [|x l Hx _ IH]; cbn.
  - split; [constructor | reflexivity].
  - destruct IH as [IHs IHin].
    destruct (insert_int_spec x (sorted l) IHs) as [Hs Hin].
    { now rewrite IHin. }
    split; [exact Hs|]. intros y. rewrite Hin, IHin. intuition congruence.
Qed.

Lemma unique_spec (l : list Z) :
  List.NoDup (unique l) ∧ ∀ y, In y (unique l) ↔ In y l.
Proof.
  induction l as [|x l [IHn IHin]]; cbn.
  - split; [constructor | reflexivity].
  - split.
    + constructor.
      * intros H. apply filter_In in H. destruct H as [_ H].
        now rewrite Z.eqb_refl in H.
      * now apply List.NoDup_filter.
    + intros y. rewrite filter_In, IHin, negb_true_iff, Z.eqb_neq.
      destruct (Z.eq_dec x y); intuition congruence.
Qed.

Lemma sum_list_indicator (k : Z) (keys : list Z) :
  List.NoDup keys →
  (In k keys →
   sum_list (map (fun c => if (k =? c)%Z then 1 else 0)%nat keys) = 1%nat)
  ∧ (¬ In k keys →
     sum_list (map (fun c => if (k =? c)%Z then 1 else 0)%nat keys) = 0%nat).
Proof.
  induction 1 as [|c keys Hc _ [IH1 IH0]]; cbn [map sum_list].
  - split; [intros [] | reflexivity].
  - destruct (Z.eqb_spec k c) as [->|Hne]; split.
    + intros _. now rewrite (IH0 Hc).
    + intros H. exfalso. apply H. now left.
    + intros [->|H]; [contradiction | now rewrite (IH1 H)].
    + intros H. rewrite IH0; [reflexivity|]. intros H'. apply H. now right.
Qed.

Lemma sum_list_plus {A : Type} (f g : A → nat) (l : list A) :
  sum_list (map (fun x => f x + g x)%nat l)
  = (sum_list (map f l) + sum_list (map g l))%nat.
Proof. induction l as [|x l IH]; cbn; [reflexivity | rewrite IH; lia]. Qed.

(** The clusters part the frame: the sizes of the clusters of a list of
    distinct ids that holds every id of the frame add up to its length. *)
Lemma in_cluster_partition (keys : list Z) (df : list ClusteredRow) :
  List.NoDup keys →
  (∀ r, In r df → In (Cluster r) keys) →
  sum_list (map (fun c => length (in_cluster c df)) keys) = length df.
Proof.
  intros Hnd. induction df as [|r df IH]; intros Hin.
  - cbn. clear Hnd Hin.
    induction keys as [|c keys IHk]; cbn; [reflexivity | exact IHk].
  - rewrite (map_ext _ (fun c => (if (Cluster r =? c)%Z then 1 else 0)
                                 + length (in_cluster c df))%nat).
    + rewrite sum_list_plus, IH.
      * rewrite (proj1 (sum_list_indicator (Cluster r) keys Hnd));
          [reflexivity|]. apply Hin. now left.
      * intros r' Hr'. apply Hin. now right.
    + intros c. unfold in_cluster. cbn. now destruct (Cluster r =? c)%Z.
Qed.

Lemma mapM_rendered_Shown {A B : Type} (f : A → rendered B) (l : list A)
    (k : list B) :
  mapM f l = Shown k → Forall2 (fun x y => f x = Shown y) l k.
Proof.
  revert k. induction l as [|x l IH]; intros k; cbn.
  - intros [= <-]. constructor.
  - destruct (f x) as [y|e] eqn:Hx; cbn; [|discriminate].
    destruct (mapM f l) as [k'|e]; cbn; [|discriminate].
    intros [= <-]. constructor; [exact Hx | now apply IH].
Qed.

Lemma mapM_rendered_Failed {A B : Type} (f : A → rendered B) (l : list A)
    (e0 : render_exn) :
  (∀ x e, f x = Failed e → e = e0) →
  ∀ e, mapM f l = Failed e ↔ e = e0 ∧ ∃ x, In x l ∧ f x = Failed e0.
Proof.
  intros Hf. induction l as [|x l IH]; intros e; cbn.
  - split; [discriminate | now intros (_ & y & [] & _)].
  - destruct (f x) as [y|e'] eqn:Hx; cbn.
    + destruct (mapM f l) as [k|e'] eqn:Hl; cbn.
      * split; [discriminate|]. intros (_ & z & [<-|Hz] & Hfz); [congruence|].
        assert (H : Shown k = Failed e0 :> rendered (list B));
          [|discriminate H].
        apply (IH e0). split; [reflexivity|]. now exists z.
      * destruct (proj1 (IH e') eq_refl) as (-> & z & Hz & Hfz).
        split; [intros [= <-]; split; [reflexivity|]; exists z; auto|].
        now intros (-> & _).
    + pose proof (Hf x e' Hx) as ->. split.
      * intros [= <-]. split; [reflexivity|]. exists x. auto.
      * now intros (-> & _).
Qed.

Lemma join_spec (sep : string) (values : list (option string)) :
  (∀ e, join sep values = Failed e →
        e = TypeError)
  ∧ (In None values ↔
     join sep values
     = Failed TypeError).
Proof.
  unfold join.
  destruct (mapM (fun v : option string => v) values) as [l|] eqn:E.
  - split; [discriminate|]. split; [|discriminate]. intros Hin.
    apply mapM_Some_1 in E. apply list_elem_of_In in Hin.
    apply list_elem_of_lookup in Hin. destruct Hin as [i Hi].
    destruct (Forall2_lookup_l _ _ _ _ _ E Hi) as (y & _ & Hy).
    discriminate Hy.
  - split; [now intros e [= <-]|]. split; [reflexivity|]. intros _.
    apply mapM_None_1, Exists_exists in E. destruct E as (x & Hx & ->).
    now apply list_elem_of_In.
Qed.

Lemma StronglySorted_lt_NoDup (l : list Z) :
  StronglySorted Z.lt l → List.NoDup l.
Proof.
  induction 1 as [|x l _ IH Hx]; constructor; [|exact IH].
  intros Hin. rewrite Forall_forall in Hx.
  apply list_elem_of_In, Hx in Hin. lia.
Qed.

Lemma cluster_ids_spec (df : list ClusteredRow) :
  StronglySorted Z.lt (sorted (unique (map Cluster df)))
  ∧ ∀ c, In c (sorted (unique (map Cluster df))) ↔ In c (map Cluster df).
Proof.
  destruct (unique_spec (map Cluster df)) as [Hnd Hin].
  destruct (sorted_spec _ Hnd) as [Hs Hin'].
  split; [exact Hs|]. intros c. now rewrite Hin', Hin.
Qed.

Section ClusterTableProperties.

Context {F : Type}.
Variable format_2f : option Q → string.
Variable nlargest : nat → list ClusteredRow → list ClusteredRow.

Local Notation "'table'" := (cluster_table (F := F) format_2f nlargest).
Local Notation "'summary'" := (cluster_summary format_2f nlargest).

Lemma cluster_summary_Shown (df : list ClusteredRow) (c : Z)
    (row : ClusterSummary) :
  summary df c = Shown row →
  Summary_Cluster row = get_cluster_names c
  ∧ Count row = length (in_cluster c df).
Proof.
  unfold cluster_summary.
  destruct (join _ _) as [countries|]; cbn; [|discriminate].
  intros [= <-]. now split.
Qed.

Lemma cluster_summary_Failed (df : list ClusteredRow) (c : Z)
    (e : render_exn) :
  summary df c = Failed e
  ↔ e = TypeError
    ∧ ∃ r, In r (nlargest 3 (in_cluster c df))
           ∧ country_name (base_row r) = None.
Proof.
  unfold cluster_summary. fold (in_cluster c df).
  pose proof (join_spec ", "
                (map (fun r => country_name (base_row r))
                   (nlargest 3 (in_cluster c df)))) as [Herr Hnone].
  rewrite in_map_iff in Hnone.
  destruct (join _ _) as [countries|e'] eqn:Hj; cbn.
  - split; [discriminate|]. intros (_ & r & Hr & Hname).
    assert (H : Shown countries
                = Failed TypeError);
      [|discriminate H].
    apply Hnone. now exists r.
  - pose proof (Herr e' eq_refl) as ->. split.
    + intros [= <-]. split; [reflexivity|].
      destruct (proj2 Hnone eq_refl) as (r & Hname & Hr). now exists r.
    + now intros (-> & _).
Qed.

(** X19. When the cluster summary is built, it has one row per cluster id
    of the clustered frame, in strictly ascending order of the ids, each
    named by [get_cluster_names]; every count is at least 1 and the counts
    add up to the number of rows of the frame. *)
Theorem cluster_table_partition (df : list ClusteredRow)
    (X_scaled : list (list F)) (features : list string)
    (rows : list ClusterSummary) :
  table (Ok (df, X_scaled, features)) = Shown rows →
  ∃ ids : list Z,
    StronglySorted Z.lt ids
    ∧ (∀ c, In c ids ↔ In c (map Cluster df))
    ∧ map Summary_Cluster rows = map get_cluster_names ids
    ∧ map Count rows = map (fun c => length (in_cluster c df)) ids
    ∧ sum_list (map Count rows) = length df
    ∧ Forall (fun s => (1 ≤ Count s)%nat) rows.
Proof.
  intros H. unfold cluster_table in H. apply mapM_rendered_Shown in H.
  destruct (cluster_ids_spec df) as [Hsorted Hin].
  set (ids := sorted (unique (map Cluster df))) in *.
  exists ids.
  assert (Hrows : map Summary_Cluster rows = map get_cluster_names ids
                  ∧ map Count rows = map (fun c => length (in_cluster c df)) ids).
  { clear Hsorted Hin. induction H as [|c row ids' rows' Hrow _ IH]; cbn.
    - now split.
    - destruct IH as [-> ->].
      apply cluster_summary_Shown in Hrow. destruct Hrow as [-> ->].
      now split. }
  destruct Hrows as [Hnames Hcounts].
  split; [exact Hsorted|]. split; [exact Hin|]. split; [exact Hnames|].
  split; [exact Hcounts|]. split.
  - rewrite Hcounts. apply in_cluster_partition.
    + now apply StronglySorted_lt_NoDup.
    + intros r Hr. apply Hin. now apply in_map.
  - apply Forall_forall. intros s Hs. apply list_elem_of_In in Hs.
    assert (Hc : In (Count s) (map Count rows)) by now apply in_map.
    rewrite Hcounts in Hc. apply in_map_iff in Hc.
    destruct Hc as (c & <- & Hc). apply Hin, in_map_iff in Hc.
    destruct Hc as (r & Hr & Hrdf).
    assert (Hmem : In r (in_cluster c df)).
    { unfold in_cluster. apply filter_In. split; [exact Hrdf|].
      now apply Z.eqb_eq. }
    destruct (in_cluster c df); [destruct Hmem | cbn; lia].
Qed.

(** X20. The cluster summary of a clustered frame fails exactly when, for
    some cluster, a row that [nlargest] picks has no country name; the
    failure is the TypeError of [join]. *)
Theorem cluster_table_raises_iff (df : list ClusteredRow)
    (X_scaled : list (list F)) (features : list string) (e : render_exn) :
  table (Ok (df, X_scaled, features)) = Failed e
  ↔ e = TypeError
    ∧ ∃ c r, In c (map Cluster df)
             ∧ In r (nlargest 3 (in_cluster c df))
             ∧ country_name (base_row r) = None.
Proof.
  unfold cluster_table.
  rewrite (mapM_rendered_Failed _ _
             TypeError).
  - destruct (cluster_ids_spec df) as [_ Hin].
    split; intros (He & H); (split; [exact He|]).
    + destruct H as (c & Hc & Hfail).
      apply cluster_summary_Failed in Hfail. destruct Hfail as (_ & r & Hr).
      exists c, r. split; [now apply Hin | exact Hr].
    + destruct H as (c & r & Hc & Hr).
      exists c. split; [now apply Hin|].
      apply cluster_summary_Failed. split; [reflexivity | now exists r].
  - intros c e' Hfail. now apply cluster_summary_Failed in Hfail.
Qed.

End ClusterTableProperties.

Lemma cluster_table_partition_witness :
  let named n q := mkRow (Some n) (Some q) None None None None None None in
  let df :=
    [mkClusteredRow (named "Finland" 7%Q) 1 "Happy";
     mkClusteredRow (named "Chad" 4%Q) 0 "Very Happy";
     mkClusteredRow (named "Denmark" 6%Q) 1 "Happy"] in
  let rows :=
    [mkClusterSummary "Very Happy" 1 "" "Chad";
     mkClusterSummary "Happy" 2 "" "Finland, Denmark"] in
  ∃ ids : list Z,
    StronglySorted Z.lt ids
    ∧ (∀ c, In c ids ↔ In c (map Cluster df))
    ∧ map Summary_Cluster rows = map get_cluster_names ids
    ∧ map Count rows = map (fun c => length (in_cluster c df)) ids
    ∧ sum_list (map Count rows) = length df
    ∧ Forall (fun s => (1 ≤ Count s)%nat) rows.
Proof.
  apply (cluster_table_partition (F := Q) blank_format first_rows
           [mkClusteredRow
              (mkRow (Some "Finland") (Some 7%Q) None None None None None None)
              1 "Happy";
            mkClusteredRow
              (mkRow (Some "Chad") (Some 4%Q) None None None None None None)
              0 "Very Happy";
            mkClusteredRow
              (mkRow (Some "Denmark") (Some 6%Q) None None None None None None)
              1 "Happy"]
           [] []).
  vm_compute. reflexivity.
Defined.

(** ** The matrix handed to the scaler *)

(** X21. The matrix [perform_clustering] builds has one row per row of the
    table and one cell per selected column, and a cell is missing only when
    the table has no value at all in that column: the gaps are filled with
    the mean of the column within the table given, whatever table that is. *)
Theorem feature_matrix_filled (df : Table) (cols : list NumCol) :
  length (feature_matrix df cols) = length df
  ∧ Forall (fun row => length row = length cols) (feature_matrix df cols)
  ∧ ∀ (i j : nat) (c : NumCol) (row : list (option Q)),
      feature_matrix df cols !! i = Some row →
      cols !! j = Some c →
      (∃ r, In r df ∧ num_cell c r ≠ None) →
      ∃ v, row !! j = Some (Some v).
Proof.
  unfold feature_matrix. split; [apply length_map|]. split.
  - apply Forall_forall. intros row Hrow.
    apply list_elem_of_fmap in Hrow. destruct Hrow as (r & -> & _).
    apply length_map.
  - intros i j c row Hi Hj (r0 & Hr0 & Hsome).
    apply list_lookup_fmap_Some in Hi. destruct Hi as (r & -> & _).
    rewrite list_lookup_fmap, Hj. cbn.
    rewrite (Series_mean_present (column c df)).
    + destruct (num_cell c r); eauto.
    + exists (num_cell c r0). split; [|exact Hsome].
      unfold column. now apply in_map.
Qed.

(** ** Quartiles *)

Lemma insert_sorted_spec (x : Q) (v : list Q) :
  StronglySorted Qle v →
  StronglySorted Qle (insert_sorted x v)
  ∧ (∀ y, In y (insert_sorted x v) ↔ y = x ∨ In y v)
  ∧ length (insert_sorted x v) = S (length v).
Proof.
  induction v as [|a v IH]; intros Hs; cbn.
  - split; [repeat constructor|]. split; [|reflexivity].
    intros y. cbn. intuition congruence.
  - apply StronglySorted_inv in Hs. destruct Hs as [Hs Ha].
    destruct (Qle_bool x a) eqn:E.
    + apply Qle_bool_iff in E. split; [|split; [|reflexivity]].
      * constructor; [now constructor|]. constructor; [exact E|].
        eapply Forall_impl; [exact Ha|]. intros y Hy. cbn in Hy.
        now apply Qle_trans with a.
      * intros y. cbn. intuition congruence.
    + assert (Hax : (a <= x)%Q).
      { apply Qlt_le_weak, Qnot_le_lt. rewrite <- Qle_bool_iff. congruence. }
      destruct (IH Hs) as (IHs & IHin & IHlen).
      split; [|split; [|cbn; now rewrite IHlen]].
      * constructor; [exact IHs|]. apply Forall_forall. intros y Hy.
        apply list_elem_of_In, IHin in Hy. destruct Hy as [->|Hy]; [exact Hax|].
        rewrite Forall_forall in Ha. apply Ha. now apply list_elem_of_In.
      * intros y. cbn. rewrite IHin. intuition congruence.
Qed.

Lemma sort_values_spec (v : list Q) :
  StronglySorted Qle (sort_values v)
  ∧ (∀ y, In y (sort_values v) ↔ In y v)
  ∧ length (sort_values v) = length v.
Proof.
  induction v as [|x v (IHs & IHin & IHlen)].
  - cbn. split; [constructor|]. now split.
  - change (sort_values (x :: v)) with (insert_sorted x (sort_values v)).
    destruct (insert_sorted_spec x (sort_values v) IHs) as (Hs & Hin & Hlen).
    split; [exact Hs|]. split; [|cbn [length]; now rewrite Hlen, IHlen].
    intros y. rewrite Hin, IHin. cbn [In]. intuition congruence.
Qed.

Lemma sorted_nth (v : list Q) (i j : nat) :
  StronglySorted Qle v → (i ≤ j)%nat → (j < length v)%nat →
  (nth i v 0 <= nth j v 0)%Q.
Proof.
  intros Hs. revert i j. induction Hs as [|x v _ IH Hx]; intros i j Hij Hj.
  - cbn in Hj. lia.
  - destruct i as [|i], j as [|j]; cbn in *; try lia.
    + apply Qle_refl.
    + rewrite Forall_forall in Hx. apply Hx, list_elem_of_In, nth_In. lia.
    + apply IH; lia.
Qed.

Lemma Series_quantile_interpolate (q : Q) (s : list (option Q)) :
  Series_quantile q s
  = match sort_values (dropna s) with
    | [] => None
    | v => Some (interpolate q v)
    end.
Proof. unfold Series_quantile. now destruct (sort_values (dropna s)). Qed.

Section Interpolation.

Variable v : list Q.
Hypothesis v_sorted : StronglySorted Qle v.
Hypothesis v_rows : (0 < length v)%nat.

Lemma Qlen_minus_1 : (Qlen v - 1 == inject_Z (Z.of_nat (length v - 1)))%Q.
Proof.
  unfold Qlen. rewrite Nat2Z.inj_sub by lia.
  change (Z.of_nat 1) with 1%Z. unfold Z.sub. rewrite inject_Z_plus.
  reflexivity.
Qed.

(** The index read at the fraction [q] of the sorted values. *)
Lemma quantile_index (q : Q) :
  (0 <= q)%Q → (q <= 1)%Q →
  (0 ≤ Qfloor (q * (Qlen v - 1)) ≤ Z.of_nat (length v - 1))%Z.
Proof.
  intros H0 H1. pose proof Qlen_minus_1 as Hlen.
  assert (Hn : (0 <= Qlen v - 1)%Q).
  { rewrite Hlen. change 0%Q with (inject_Z 0). rewrite <- Zle_Qle. lia. }
  split.
  - rewrite <- (Qfloor_Z 0). apply Qfloor_resp_le. cbn.
    now apply Qmult_le_0_compat.
  - rewrite <- (Qfloor_Z (Z.of_nat (length v - 1))). apply Qfloor_resp_le.
    rewrite <- Hlen. Lqa.nra.
Qed.

Lemma interpolate_between (q : Q) :
  (0 <= q)%Q → (q <= 1)%Q →
  let i := Z.to_nat (Qfloor (q * (Qlen v - 1))) in
  (i ≤ length v - 1)%nat
  ∧ (nth i v 0 <= interpolate q v)%Q
  ∧ (interpolate q v <= nth (Nat.min (S i) (length v - 1)) v 0)%Q.
Proof.
  intros H0 H1 i. pose proof (quantile_index q H0 H1) as [Hlo Hhi].
  assert (Hi : (i ≤ length v - 1)%nat) by (subst i; lia).
  split; [exact Hi|].
  assert (Hab : (nth i v 0 <= nth (Nat.min (S i) (length v - 1)) v 0)%Q)
    by (apply sorted_nth; [exact v_sorted | lia | lia]).
  pose proof (Qfloor_le (q * (Qlen v - 1))) as Hf0.
  pose proof (Qlt_floor (q * (Qlen v - 1))) as Hf1.
  rewrite inject_Z_plus in Hf1. change (inject_Z 1) with 1%Q in Hf1.
  unfold interpolate. fold i.
  set (a := nth i v 0%Q) in *.
  set (b := nth (Nat.min (S i) (length v - 1)) v 0%Q) in *.
  set (pos := (q * (Qlen v - 1))%Q) in *.
  set (lo := inject_Z (Qfloor pos)) in *.
  split; Lqa.nra.
Qed.

Lemma interpolate_mono (q q' : Q) :
  (0 <= q)%Q → (q <= q')%Q → (q' <= 1)%Q →
  (interpolate q v <= interpolate q' v)%Q.
Proof.
  intros H0 Hqq H1.
  assert (H1' : (q <= 1)%Q) by (eapply Qle_trans; eassumption).
  assert (H0' : (0 <= q')%Q) by (eapply Qle_trans; eassumption).
  pose proof (quantile_index q H0 H1') as [Hlo Hhi].
  pose proof (quantile_index q' H0' H1) as [Hlo' Hhi'].
  assert (Hn : (0 <= Qlen v - 1)%Q).
  { rewrite Qlen_minus_1. change 0%Q with (inject_Z 0).
    rewrite <- Zle_Qle. lia. }
  assert (Hpos : (q * (Qlen v - 1) <= q' * (Qlen v - 1))%Q)
    by now apply Qmult_le_compat_r.
  pose proof (Qfloor_resp_le _ _ Hpos) as Hfl.
  destruct (Z.eq_dec (Qfloor (q * (Qlen v - 1))) (Qfloor (q' * (Qlen v - 1))))
    as [Heq|Hne].
  - destruct (interpolate_between q H0 H1') as (Hi & _ & _).
    assert (Hab : (nth (Z.to_nat (Qfloor (q * (Qlen v - 1)))) v 0
                   <= nth (Nat.min (S (Z.to_nat (Qfloor (q * (Qlen v - 1)))))
                               (length v - 1)) v 0)%Q)
      by (apply sorted_nth; [exact v_sorted | lia | lia]).
    unfold interpolate. rewrite <- Heq.
    set (a := nth _ v 0%Q) in *. set (b := nth (Nat.min _ _) v 0%Q) in *.
    Lqa.nra.
  - destruct (interpolate_between q H0 H1') as (Hi & _ & Hup).
    destruct (interpolate_between q' H0' H1) as (Hi' & Hdown & _).
    eapply Qle_trans; [exact Hup|]. eapply Qle_trans; [|exact Hdown].
    apply sorted_nth; [exact v_sorted | lia | lia].
Qed.

End Interpolation.

(** X22. On a table with at least one present ladder score the quartiles
    of the summary are ordered and lie between the minimum and the maximum:
    min <= q25 <= q75 <= max. *)
Theorem summary_quartiles_ordered (df : Table) :
  (∃ r, In r df ∧ ladder_score r ≠ None) →
  ∃ lo q1 q3 hi : Q,
    min (get_summary_stats df) = Some lo
    ∧ q25 (get_summary_stats df) = Some q1
    ∧ q75 (get_summary_stats df) = Some q3
    ∧ max (get_summary_stats df) = Some hi
    ∧ (lo <= q1)%Q ∧ (q1 <= q3)%Q ∧ (q3 <= hi)%Q.
Proof.
  intros (r & Hr & Hsome).
  cbn [get_summary_stats min max q25 q75].
  set (s := column LadderScore df).
  assert (Hs : ∃ x, In x (dropna s)).
  { destruct (ladder_score r) as [x|] eqn:E; [|contradiction].
    exists x. apply In_dropna. rewrite <- E. unfold s, column.
    now apply in_map. }
  destruct Hs as [x0 Hx0].
  destruct (sort_values_spec (dropna s)) as (Hsorted & Hin & Hlen).
  rewrite !Series_quantile_interpolate.
  unfold Series_min, Series_max.
  destruct (dropna s) as [|x w] eqn:Hdrop; [destruct Hx0|].
  destruct (fold_min_spec w x) as [_ Hmin].
  destruct (fold_max_spec w x) as [_ Hmax].
  destruct (sort_values (x :: w)) as [|y v] eqn:Hv; [discriminate Hlen|].
  assert (Hrows : (0 < length (y :: v))%nat) by (cbn; lia).
  assert (H25 : (0 <= 25 # 100)%Q ∧ (25 # 100 <= 1)%Q) by (split; discriminate).
  assert (H75 : (0 <= 75 # 100)%Q ∧ (75 # 100 <= 1)%Q) by (split; discriminate).
  destruct (interpolate_between (y :: v) Hsorted Hrows (25 # 100))
    as (Hi & Hlow & _); [apply H25..|].
  destruct (interpolate_between (y :: v) Hsorted Hrows (75 # 100))
    as (Hi' & _ & Hup); [apply H75..|].
  eexists _, _, _, _. repeat split.
  - eapply Qle_trans; [|exact Hlow]. apply Hmin, Hin, nth_In. lia.
  - apply interpolate_mono; [exact Hsorted | exact Hrows | apply H25 | | apply H75].
    discriminate.
  - eapply Qle_trans; [exact Hup|]. apply Hmax, Hin, nth_In. lia.
Qed.

Lemma summary_quartiles_ordered_witness :
  ∃ lo q1 q3 hi : Q,
    min (get_summary_stats (map ladder_only [4; 7; 5]%Q)) = Some lo
    ∧ q25 (get_summary_stats (map ladder_only [4; 7; 5]%Q)) = Some q1
    ∧ q75 (get_summary_stats (map ladder_only [4; 7; 5]%Q)) = Some q3
    ∧ max (get_summary_stats (map ladder_only [4; 7; 5]%Q)) = Some hi
    ∧ (lo <= q1)%Q ∧ (q1 <= q3)%Q ∧ (q3 <= hi)%Q.
Proof.
  apply (summary_quartiles_ordered (map ladder_only [4; 7; 5]%Q)).
  exists (ladder_only 4). split; [now left | discriminate].
Defined.
